(** * Provides side of the AWS integration interface: a verification model

    The development embeds [src/provides.py] (classes
    [AWSIntegrationProvides] and [IntegrationRequest]) in Rocq and proves
    the properties the specification states about it.

    Layout:
    - [Py]      : the Python values that travel over the relation (decoded
                  JSON), truthiness, [str()], [list()], [dict()];
    - [Sha256]  : [hashlib.sha256(...).hexdigest()];
    - [Json]    : [json.dumps(..., sort_keys=True)];
    - [Provides]: the request view, the persisted store, the published
                  completion map, [check_requests] and [cleanup];
    - [Alias]   : an object heap, to speak about defensive copies;
    - [Usage]   : the handler loop of the class's usage example. *)

From stdpp Require Import gmap strings list.
From Stdlib Require Import ZArith String Ascii List Permutation Sorted Lia.
From Stdlib Require Import DecimalString OrdersEx.
Import ListNotations.

Local Open Scope string_scope.
Local Open Scope Z_scope.

(** ** Python values *)

Module Py.

(** Values carried by relation data once decoded from JSON.  Numbers are
    integers (floating point is not modelled); a string is a sequence of
    code points below 256; a mapping keeps its insertion order, as a Python
    [dict] does. *)
#[warnings="-register-all"]
Inductive pyval : Type :=
| PNone : pyval
| PBool : bool -> pyval
| PInt  : Z -> pyval
| PStr  : string -> pyval
| PList : list pyval -> pyval
| PDict : list (string * pyval) -> pyval.

(** Exceptions the modelled operations can raise. *)
Inductive exn : Type := TypeError | ValueError.

Inductive result (A : Type) : Type :=
| Ok : A -> result A
| Raise : exn -> result A.
Arguments Ok {A} _.
Arguments Raise {A} _.

Definition bind {A B} (m : result A) (f : A -> result B) : result B :=
  match m with
  | Ok a => f a
  | Raise e => Raise e
  end.

Notation "x <- m ;; k" := (bind m (fun x => k))
  (at level 100, m at next level, right associativity).

Definition raises {A} (m : result A) : bool :=
  match m with Ok _ => false | Raise _ => true end.

(** What [f] sees of the result, when there is one. *)
Definition on_ok {A B} (m : result A) (f : A -> B) : option B :=
  match m with Ok a => Some (f a) | Raise _ => None end.

(** [bool(v)] *)
Definition truthy (v : pyval) : bool :=
  match v with
  | PNone => false
  | PBool b => b
  | PInt z => negb (z =? 0)
  | PStr s => negb (String.eqb s "")
  | PList l => match l with [] => false | _ => true end
  | PDict d => match d with [] => false | _ => true end
  end.

(** [a and b]: the first operand when it is falsy, the second otherwise. *)
Definition py_and (a b : pyval) : pyval := if truthy a then b else a.

(** [a or b] *)
Definition py_or (a b : pyval) : pyval := if truthy a then a else b.

(** [v == s] for a [str] [s]: only an equal string compares equal. *)
Definition py_eq_str (v : pyval) (s : string) : bool :=
  match v with
  | PStr t => String.eqb t s
  | _ => false
  end.

(** Lookup in an insertion-ordered mapping with string keys. *)
Fixpoint assoc {A} (k : string) (d : list (string * A)) : option A :=
  match d with
  | [] => None
  | (k', v) :: d' => if String.eqb k k' then Some v else assoc k d'
  end.

(** *** Text rendering *)

Definition hex_digit (n : Z) : ascii :=
  if n <? 10 then ascii_of_N (Z.to_N (48 + n)) else ascii_of_N (Z.to_N (87 + n)).

Definition code (c : ascii) : Z := Z.of_N (N_of_ascii c).

Definition hex2 (c : ascii) : string :=
  String (hex_digit (code c / 16)) (String (hex_digit (code c mod 16)) "").

Fixpoint join (sep : string) (l : list string) : string :=
  match l with
  | [] => ""
  | [x] => x
  | x :: l' => x ++ sep ++ join sep l'
  end.

Fixpoint contains (c : ascii) (s : string) : bool :=
  match s with
  | EmptyString => false
  | String c' s' => Ascii.eqb c c' || contains c s'
  end.

Fixpoint all_chars (p : ascii -> bool) (s : string) : bool :=
  match s with
  | EmptyString => true
  | String c s' => p c && all_chars p s'
  end.

(** A lower-case hexadecimal digit. *)
Definition is_hex (c : ascii) : bool := contains c "0123456789abcdef".

Definition decimal (z : Z) : string := NilZero.string_of_int (Z.to_int z).

Definition squote : ascii := ascii_of_N 39.
Definition dquote : ascii := ascii_of_N 34.
Definition backslash : ascii := ascii_of_N 92.

(** Code points below 256 that [str.isprintable] accepts. *)
Definition printable (c : ascii) : bool :=
  let n := code c in
  ((32 <=? n) && (n <? 127)) || ((161 <=? n) && negb (n =? 173)).

Definition repr_char (q c : ascii) : string :=
  if Ascii.eqb c q || Ascii.eqb c backslash then String backslash (String c "")
  else if code c =? 9 then String backslash "t"
  else if code c =? 10 then String backslash "n"
  else if code c =? 13 then String backslash "r"
  else if printable c then String c ""
  else String backslash ("x" ++ hex2 c).

Fixpoint repr_body (q : ascii) (s : string) : string :=
  match s with
  | EmptyString => ""
  | String c s' => repr_char q c ++ repr_body q s'
  end.

(** [repr(s)] of a [str]: single quotes unless the text has a single quote
    and no double quote. *)
Definition repr_str (s : string) : string :=
  let q := if contains squote s && negb (contains dquote s) then dquote else squote in
  String q (repr_body q s ++ String q "").

(** [repr(v)] *)
Fixpoint py_repr (v : pyval) : string :=
  match v with
  | PNone => "None"
  | PBool true => "True"
  | PBool false => "False"
  | PInt z => decimal z
  | PStr s => repr_str s
  | PList l => "[" ++ join ", " (map py_repr l) ++ "]"
  | PDict d =>
      "{" ++ join ", " (map (fun kv => let '(k, x) := kv in
                                        repr_str k ++ ": " ++ py_repr x) d) ++ "}"
  end.

(** [str(v)], which is what ['{}'.format(v)] and an f-string field give. *)
Definition py_str (v : pyval) : string :=
  match v with
  | PStr s => s
  | _ => py_repr v
  end.

(** *** Conversions *)

Fixpoint chars (s : string) : list pyval :=
  match s with
  | EmptyString => []
  | String c s' => PStr (String c "") :: chars s'
  end.

(** The items [iter(v)] yields; [None], booleans and integers are not
    iterable. *)
Definition py_iter (v : pyval) : result (list pyval) :=
  match v with
  | PList l => Ok l
  | PStr s => Ok (chars s)
  | PDict d => Ok (map (fun kv => PStr (fst kv)) d)
  | PNone | PBool _ | PInt _ => Raise TypeError
  end.

(** [list(v)]: a new list holding the items of [v]. *)
Definition py_list (v : pyval) : result (list pyval) := py_iter v.

(** Values usable as dictionary keys. *)
Definition hashable (v : pyval) : bool :=
  match v with
  | PNone | PBool _ | PInt _ | PStr _ => true
  | PList _ | PDict _ => false
  end.

Definition as_int (v : pyval) : option Z :=
  match v with
  | PBool b => Some (if b then 1 else 0)
  | PInt z => Some z
  | _ => None
  end.

(** Equality of dictionary keys: [True == 1] and [False == 0]. *)
Definition key_eqb (a b : pyval) : bool :=
  match a, b with
  | PNone, PNone => true
  | PStr s, PStr t => String.eqb s t
  | _, _ =>
      match as_int a, as_int b with
      | Some x, Some y => x =? y
      | _, _ => false
      end
  end.

(** The scalar a key stands for when keys are compared. *)
Definition key_class (k : pyval) : option (option (Z + string)) :=
  match k with
  | PNone => Some None
  | PBool b => Some (Some (inl (if b then 1 else 0)))
  | PInt z => Some (Some (inl z))
  | PStr s => Some (Some (inr s))
  | _ => None
  end.

(** A Python [dict] in memory: insertion-ordered, keyed by hashable
    values. *)
Definition pydict : Type := list (pyval * pyval).

(** [d.get(k)], for a hashable [k]. *)
Fixpoint dict_find (k : pyval) (d : pydict) : option pyval :=
  match d with
  | [] => None
  | (k', v) :: d' => if key_eqb k k' then Some v else dict_find k d'
  end.

(** [d[k] = v], for a hashable [k]: an existing equal key keeps its place
    (and its key object), a new one goes last. *)
Fixpoint dict_store (k v : pyval) (d : pydict) : pydict :=
  match d with
  | [] => [(k, v)]
  | (k', v') :: d' =>
      if key_eqb k k' then (k', v) :: d' else (k', v') :: dict_store k v d'
  end.

Definition dict_get (k : pyval) (d : pydict) : result (option pyval) :=
  if hashable k then Ok (dict_find k d) else Raise TypeError.

Definition dict_set (k v : pyval) (d : pydict) : result pydict :=
  if hashable k then Ok (dict_store k v d) else Raise TypeError.

(** [dict(seq)] for a sequence of pairs: every item must be iterable
    (TypeError), have exactly two elements (ValueError) and a hashable
    first element (TypeError). *)
Fixpoint dict_of_pairs (items : list pyval) (acc : pydict) : result pydict :=
  match items with
  | [] => Ok acc
  | it :: rest =>
      kv <- py_iter it ;;
      match kv with
      | [k; v] => acc' <- dict_set k v acc ;; dict_of_pairs rest acc'
      | _ => Raise ValueError
      end
  end.

(** [dict(v)]: a new dictionary; a mapping is copied item by item. *)
Definition py_dict (v : pyval) : result pydict :=
  match v with
  | PDict d => Ok (map (fun kv => (PStr (fst kv), snd kv)) d)
  | PList l => dict_of_pairs l []
  | PStr s => dict_of_pairs (chars s) []
  | PNone | PBool _ | PInt _ => Raise TypeError
  end.

End Py.

(** ** SHA-256 ([hashlib.sha256(data).hexdigest()]), after FIPS 180-4 *)

Module Sha256.

Definition mask32 : Z := 2 ^ 32 - 1.
Definition wrap (x : Z) : Z := x mod 2 ^ 32.
Definition add32 (x y : Z) : Z := wrap (x + y).
Definition rotr (n x : Z) : Z :=
  Z.lor (Z.shiftr x n) (wrap (Z.shiftl x (32 - n))).

Definition ch (x y z : Z) : Z :=
  Z.lxor (Z.land x y) (Z.land (Z.lxor x mask32) z).
Definition maj (x y z : Z) : Z :=
  Z.lxor (Z.lxor (Z.land x y) (Z.land x z)) (Z.land y z).
Definition bsig0 (x : Z) : Z := Z.lxor (Z.lxor (rotr 2 x) (rotr 13 x)) (rotr 22 x).
Definition bsig1 (x : Z) : Z := Z.lxor (Z.lxor (rotr 6 x) (rotr 11 x)) (rotr 25 x).
Definition ssig0 (x : Z) : Z := Z.lxor (Z.lxor (rotr 7 x) (rotr 18 x)) (Z.shiftr x 3).
Definition ssig1 (x : Z) : Z := Z.lxor (Z.lxor (rotr 17 x) (rotr 19 x)) (Z.shiftr x 10).

(** The round constants are the first 32 fractional bits of the cube roots
    of the first 64 primes, the initial state those of the square roots of
    the first 8; both are computed rather than tabulated. *)
Definition primes : list Z :=
  [2; 3; 5; 7; 11; 13; 17; 19; 23; 29; 31; 37; 41; 43; 47; 53;
   59; 61; 67; 71; 73; 79; 83; 89; 97; 101; 103; 107; 109; 113; 127; 131;
   137; 139; 149; 151; 157; 163; 167; 173; 179; 181; 191; 193; 197; 199; 211; 223;
   227; 229; 233; 239; 241; 251; 257; 263; 269; 271; 277; 281; 283; 293; 307; 311].

(** Integer cube root of [x], found bit by bit below bit [n]. *)
Fixpoint cbrt_bits (n : nat) (x r : Z) : Z :=
  match n with
  | O => r
  | S k =>
      let c := r + 2 ^ Z.of_nat k in
      if c * c * c <=? x then cbrt_bits k x c else cbrt_bits k x r
  end.

Definition round_constants : list Z :=
  Eval vm_compute in map (fun p => wrap (cbrt_bits 40 (p * 2 ^ 96) 0)) primes.

(** The working state: eight 32-bit words. *)
Record words8 : Type := W8 { wa : Z; wb : Z; wc : Z; wd : Z; we : Z; wf : Z; wg : Z; wh : Z }.

Definition frac_sqrt (p : Z) : Z := wrap (Z.sqrt (p * 2 ^ 64)).

Definition initial_state : words8 :=
  Eval vm_compute in
    W8 (frac_sqrt 2) (frac_sqrt 3) (frac_sqrt 5) (frac_sqrt 7)
       (frac_sqrt 11) (frac_sqrt 13) (frac_sqrt 17) (frac_sqrt 19).

(** Padding: a 1 bit, zeros up to 56 modulo 64 bytes, then the bit length
    as a 64-bit big-endian integer. *)
Definition be_bytes (n : nat) (x : Z) : list Z :=
  map (fun i => (x / 256 ^ Z.of_nat i) mod 256) (rev (seq 0 n)).

Definition pad (msg : list Z) : list Z :=
  let len := Z.of_nat (length msg) in
  let zeros := Z.to_nat ((55 - len) mod 64) in
  msg ++ [128] ++ repeat 0 zeros ++ be_bytes 8 (8 * len).

Fixpoint chunks (fuel n : nat) (l : list Z) : list (list Z) :=
  match fuel with
  | O => []
  | S f =>
      match l with
      | [] => []
      | _ => firstn n l :: chunks f n (skipn n l)
      end
  end.

Definition be_word (bs : list Z) : Z := fold_left (fun acc b => acc * 256 + b) bs 0.

Definition block_words (blk : list Z) : list Z :=
  map be_word (chunks 16 4 blk).

(** Message schedule: 16 block words extended to 64. *)
Fixpoint extend (n : nat) (w : list Z) : list Z :=
  match n with
  | O => w
  | S k =>
      let t := length w in
      let x i := nth (t - i) w 0 in
      extend k (w ++ [add32 (add32 (ssig1 (x 2%nat)) (x 7%nat))
                            (add32 (ssig0 (x 15%nat)) (x 16%nat))])
  end.

Definition round (s : words8) (kw : Z * Z) : words8 :=
  let t1 := add32 (add32 (add32 (wh s) (bsig1 (we s)))
                         (add32 (ch (we s) (wf s) (wg s)) (fst kw))) (snd kw) in
  let t2 := add32 (bsig0 (wa s)) (maj (wa s) (wb s) (wc s)) in
  W8 (add32 t1 t2) (wa s) (wb s) (wc s) (add32 (wd s) t1) (we s) (wf s) (wg s).

Definition compress (s : words8) (blk : list Z) : words8 :=
  let r := fold_left round (combine round_constants (extend 48 (block_words blk))) s in
  W8 (add32 (wa s) (wa r)) (add32 (wb s) (wb r)) (add32 (wc s) (wc r))
     (add32 (wd s) (wd r)) (add32 (we s) (we r)) (add32 (wf s) (wf r))
     (add32 (wg s) (wg r)) (add32 (wh s) (wh r)).

Definition digest (msg : list Z) : words8 :=
  let p := pad msg in
  fold_left compress (chunks (length p) 64 p) initial_state.

Definition hex_word (x : Z) : string :=
  string_of_list_ascii
    (map (fun i => Py.hex_digit ((x / 16 ^ Z.of_nat i) mod 16)) (rev (seq 0 8))).

Definition hex_words (s : words8) : string :=
  hex_word (wa s) ++ hex_word (wb s) ++ hex_word (wc s) ++ hex_word (wd s) ++
  hex_word (we s) ++ hex_word (wf s) ++ hex_word (wg s) ++ hex_word (wh s).

(** [s.encode('utf8')] for text made of ASCII characters only: one byte per
    character. *)
Definition encode (s : string) : list Z := map Py.code (list_ascii_of_string s).

(** [sha256(data).hexdigest()] *)
Definition hexdigest (msg : list Z) : string := hex_words (digest msg).

End Sha256.

(** ** [json.dumps(obj, sort_keys=True)] *)

Module Json.
Import Py.

(** One character of a string literal, with [ensure_ascii] on: the short
    escapes, the character itself from space to tilde, a [\u00XX] escape
    otherwise. *)
Definition escape_char (c : ascii) : string :=
  if Ascii.eqb c dquote || Ascii.eqb c backslash then String backslash (String c "")
  else if code c =? 8 then String backslash "b"
  else if code c =? 12 then String backslash "f"
  else if code c =? 10 then String backslash "n"
  else if code c =? 13 then String backslash "r"
  else if code c =? 9 then String backslash "t"
  else if (32 <=? code c) && (code c <=? 126) then String c ""
  else String backslash ("u00" ++ hex2 c).

Fixpoint escape (s : string) : string :=
  match s with
  | EmptyString => ""
  | String c s' => escape_char c ++ escape s'
  end.

Definition quote (s : string) : string :=
  String dquote (escape s ++ String dquote "").

(** [sort_keys]: the items are sorted by key, keys compared code point by
    code point. *)
Fixpoint insert {A} (x : string * A) (l : list (string * A)) : list (string * A) :=
  match l with
  | [] => [x]
  | y :: l' => if String.leb (fst x) (fst y) then x :: l else y :: insert x l'
  end.

Fixpoint sort_items {A} (l : list (string * A)) : list (string * A) :=
  match l with
  | [] => []
  | x :: l' => insert x (sort_items l')
  end.

(** The order the items are put in. *)
Definition key_le {A} (x y : string * A) : Prop := String.leb (fst x) (fst y) = true.

(** Each item is rendered under its key, then the rendered items are put in
    key order; the order only looks at the keys, so this is the text
    [json.dumps] gives for the items sorted first. *)
Fixpoint dumps (v : pyval) : string :=
  match v with
  | PNone => "null"
  | PBool true => "true"
  | PBool false => "false"
  | PInt z => decimal z
  | PStr s => quote s
  | PList l => "[" ++ join ", " (map dumps l) ++ "]"
  | PDict d =>
      let item kv := let '(k, x) := kv in (k, quote k ++ ": " ++ dumps x) in
      "{" ++ join ", " (map snd (sort_items (map item d))) ++ "}"
  end.

End Json.

(** ** The interface layer: [AWSIntegrationProvides] and [IntegrationRequest] *)

Module Provides.
Import Py.

(** A remote unit as the framework hands it over.  [received] is the unit's
    relation data, decoded; [relation] identifies the relation the unit
    belongs to, whose outgoing payload is in the state below. *)
Record RelatedUnit : Type := {
  unit_name : string;
  application_name : string;
  relation : nat;
  received : list (string * pyval)
}.

(** [received[key]]: the framework's data view gives [None] for a key that
    is not there (the source relies on it: [received[k] or []],
    [bool(received[k])]). *)
Definition getitem (data : list (string * pyval)) (key : string) : pyval :=
  default PNone (assoc key data).

(** [received.get(key, dflt)] *)
Definition get (data : list (string * pyval)) (key : string) (dflt : pyval) : pyval :=
  default dflt (assoc key data).

(** The key is in the mapping and its value is truthy. *)
Definition present_and_truthy (data : list (string * pyval)) (key : string) : Prop :=
  exists v, assoc key data = Some v /\ truthy v = true.

(** An instance id as the interface declares it: absent ([None]) or a
    string. *)
Definition plain_id (v : pyval) : bool :=
  match v with
  | PNone | PStr _ => true
  | _ => false
  end.

(** What the handlers read and write outside the request objects:
    - [kv]: the unit's persistent key-value store, [unitdata.kv()];
    - [to_publish]: per relation, the ['completed'] entry of the outgoing
      payload (absent until first written); no other entry of the payload
      is read or written by this layer.  The framework keeps an entry as
      JSON text, written with sorted keys when the entry is assigned and
      decoded when it is read, so what is read back has string keys only.
      The model keeps the dictionary itself.  The two hold the same
      mapping whenever the keys of the dictionary are strings, that is,
      for instance ids that are strings, the kind the interface declares;
      what is proved about the published map after [mark_completed] is
      stated for such ids;
    - [flags]: the reactive flags that are set;
    - [all_departed_units]: the units that left and were not cleaned up yet;
    - [log]: the messages given to [hookenv.log], oldest first. *)
Record state : Type := {
  kv : gmap string pyval;
  to_publish : gmap nat pydict;
  flags : gset string;
  all_departed_units : list RelatedUnit;
  log : list string
}.

Definition kv_get (st : state) (key : string) : pyval :=
  default PNone (kv st !! key).

Definition kv_set (key : string) (v : pyval) (st : state) : state :=
  {| kv := <[key := v]> (kv st); to_publish := to_publish st; flags := flags st;
     all_departed_units := all_departed_units st; log := log st |}.

Definition kv_unset (key : string) (st : state) : state :=
  {| kv := delete key (kv st); to_publish := to_publish st; flags := flags st;
     all_departed_units := all_departed_units st; log := log st |}.

(** [relation.to_publish.get('completed', {})]: the dictionary last
    assigned (see [state] for the keys this is exact for). *)
Definition published (st : state) (rel : nat) : pydict :=
  default [] (to_publish st !! rel).

(** [relation.to_publish['completed'] = completed], for a dictionary with
    string keys (see [state]). *)
Definition publish (rel : nat) (completed : pydict) (st : state) : state :=
  {| kv := kv st; to_publish := <[rel := completed]> (to_publish st); flags := flags st;
     all_departed_units := all_departed_units st; log := log st |}.

Definition set_flag (flag : string) (st : state) : state :=
  {| kv := kv st; to_publish := to_publish st; flags := {[flag]} ∪ flags st;
     all_departed_units := all_departed_units st; log := log st |}.

Definition clear_flag (flag : string) (st : state) : state :=
  {| kv := kv st; to_publish := to_publish st; flags := flags st ∖ {[flag]};
     all_departed_units := all_departed_units st; log := log st |}.

Definition toggle_flag (flag : string) (should_set : bool) (st : state) : state :=
  if should_set then set_flag flag st else clear_flag flag st.

Definition hookenv_log (msg : string) (st : state) : state :=
  {| kv := kv st; to_publish := to_publish st; flags := flags st;
     all_departed_units := all_departed_units st; log := log st ++ [msg] |}.

Definition clear_departed (st : state) : state :=
  {| kv := kv st; to_publish := to_publish st; flags := flags st;
     all_departed_units := []; log := log st |}.

(** *** The framework's [Endpoint.expand_name]

    A name that does not mention [{endpoint_name}] is first prefixed with
    [endpoint.{endpoint_name}.]; then every [{endpoint_name}] is replaced
    by the name of the endpoint.  The module docstring shows the result for
    a plain name: [endpoint.{endpoint_name}.requested]. *)
Definition placeholder : string := "{endpoint_name}".

(** [s.startswith(pat)] *)
Fixpoint starts_with (pat s : string) : bool :=
  match pat, s with
  | EmptyString, _ => true
  | String _ _, EmptyString => false
  | String a pat', String b s' => Ascii.eqb a b && starts_with pat' s'
  end.

(** [pat in s] *)
Fixpoint contains (pat s : string) : bool :=
  starts_with pat s ||
  match s with
  | EmptyString => false
  | String _ s' => contains pat s'
  end.

(** [s.replace(old, new)] for a non-empty [old]: occurrences are taken from
    the left and do not overlap.  [skip] counts the characters of the
    occurrence just replaced that are still to be passed over. *)
Fixpoint replace_from (skip : nat) (old new s : string) : string :=
  match s with
  | EmptyString => EmptyString
  | String c s' =>
      match skip with
      | S k => replace_from k old new s'
      | O =>
          if starts_with old s
          then new ++ replace_from (String.length old - 1)%nat old new s'
          else String c (replace_from 0 old new s')
      end
  end.

Definition replace (old new s : string) : string := replace_from 0 old new s.

Definition Endpoint_expand_name (endpoint_name flag : string) : string :=
  let flag' := if contains placeholder flag then flag
               else "endpoint.{endpoint_name}." ++ flag in
  replace placeholder endpoint_name flag'.

(** [IntegrationRequest]: the unit and the hash computed when the request
    is constructed. *)
Record IntegrationRequest : Type := {
  _unit : RelatedUnit;
  _hash : string
}.

(** [sha256(json.dumps(dict(received), sort_keys=True).encode('utf8')).hexdigest()] *)
Definition content_hash (data : list (string * pyval)) : string :=
  Sha256.hexdigest (Sha256.encode (Json.dumps (PDict data))).

(** [IntegrationRequest.__init__] *)
Definition init (unit : RelatedUnit) : IntegrationRequest :=
  {| _unit := unit; _hash := content_hash (received unit) |}.

Definition hash (r : IntegrationRequest) : string := _hash r.

Definition _requested (r : IntegrationRequest) : pyval :=
  getitem (received (_unit r)) "requested".

Definition instance_id (r : IntegrationRequest) : pyval :=
  getitem (received (_unit r)) "instance-id".

Definition region (r : IntegrationRequest) : pyval :=
  getitem (received (_unit r)) "region".

(** *** Typed accessors *)

Definition tags_of (r : IntegrationRequest) (key : string) : result pydict :=
  py_dict (get (received (_unit r)) key (PDict [])).

Definition flag_of (r : IntegrationRequest) (key : string) : bool :=
  truthy (getitem (received (_unit r)) key).

Definition patterns_of (r : IntegrationRequest) (key : string) : result (list pyval) :=
  py_list (py_or (getitem (received (_unit r)) key) (PList [])).

Definition instance_tags r := tags_of r "instance-tags".
Definition instance_security_group_tags r := tags_of r "instance-security-group-tags".
Definition instance_subnet_tags r := tags_of r "instance-subnet-tags".
Definition requested_instance_inspection r := flag_of r "enable-instance-inspection".
Definition requested_acm_readonly r := flag_of r "enable-acm-readonly".
Definition requested_acm_fullaccess r := flag_of r "enable-acm-fullaccess".
Definition requested_network_management r := flag_of r "enable-network-management".
Definition requested_load_balancer_management r := flag_of r "enable-load-balancer-management".
Definition requested_block_storage_management r := flag_of r "enable-block-storage-management".
Definition requested_dns_management r := flag_of r "enable-dns-management".
Definition requested_object_storage_access r := flag_of r "enable-object-storage-access".
Definition object_storage_access_patterns r := patterns_of r "object-storage-access-patterns".
Definition requested_object_storage_management r := flag_of r "enable-object-storage-management".
Definition object_storage_management_patterns r :=
  patterns_of r "object-storage-management-patterns".
Definition requested_ses_readonly r := flag_of r "enable-ses-readonly".
Definition requested_ses_fullaccess r := flag_of r "enable-ses-fullaccess".
Definition requested_sns_readonly r := flag_of r "enable-sns-readonly".
Definition requested_sns_fullaccess r := flag_of r "enable-sns-fullaccess".
Definition requested_mobiletargeting_readonly r := flag_of r "enable-mobiletargeting-readonly".
Definition requested_mobiletargeting_fullaccess r :=
  flag_of r "enable-mobiletargeting-fullaccess".
Definition requested_sms_voice_readonly r := flag_of r "enable-sms-voice-readonly".
Definition requested_sms_voice_fullaccess r := flag_of r "enable-sms-voice-fullaccess".

(** The accessors with the key each one reads: three mappings, two lists
    and seventeen flags. *)
Definition tag_accessors : list (string * (IntegrationRequest -> result pydict)) :=
  [("instance-tags", instance_tags);
   ("instance-security-group-tags", instance_security_group_tags);
   ("instance-subnet-tags", instance_subnet_tags)].

Definition pattern_accessors
  : list (string * (IntegrationRequest -> result (list pyval))) :=
  [("object-storage-access-patterns", object_storage_access_patterns);
   ("object-storage-management-patterns", object_storage_management_patterns)].

Definition flag_accessors : list (string * (IntegrationRequest -> bool)) :=
  [("enable-instance-inspection", requested_instance_inspection);
   ("enable-acm-readonly", requested_acm_readonly);
   ("enable-acm-fullaccess", requested_acm_fullaccess);
   ("enable-network-management", requested_network_management);
   ("enable-load-balancer-management", requested_load_balancer_management);
   ("enable-block-storage-management", requested_block_storage_management);
   ("enable-dns-management", requested_dns_management);
   ("enable-object-storage-access", requested_object_storage_access);
   ("enable-object-storage-management", requested_object_storage_management);
   ("enable-ses-readonly", requested_ses_readonly);
   ("enable-ses-fullaccess", requested_ses_fullaccess);
   ("enable-sns-readonly", requested_sns_readonly);
   ("enable-sns-fullaccess", requested_sns_fullaccess);
   ("enable-mobiletargeting-readonly", requested_mobiletargeting_readonly);
   ("enable-mobiletargeting-fullaccess", requested_mobiletargeting_fullaccess);
   ("enable-sms-voice-readonly", requested_sms_voice_readonly);
   ("enable-sms-voice-fullaccess", requested_sms_voice_fullaccess)].

Section Endpoint.

(** [Endpoint.expand_name], the framework's map from a short name to the
    full flag or key name of this endpoint. *)
Variable expand_name : string -> string.

Definition _hash_key (r : IntegrationRequest) : string :=
  expand_name ("request." ++ py_str (instance_id r)).

Definition changed (r : IntegrationRequest) (st : state) : bool :=
  if negb (truthy (py_and (instance_id r) (_requested r))) then false
  else
    let saved_hash := kv_get st (_hash_key r) in
    negb (py_eq_str saved_hash (hash r)).

Definition mark_completed (r : IntegrationRequest) (st : state) : result state :=
  let completed := published st (relation (_unit r)) in
  completed' <- dict_set (instance_id r) (PStr (hash r)) completed ;;
  Ok (publish (relation (_unit r)) completed'
        (kv_set (_hash_key r) (PStr (hash r)) st)).

Definition clear (r : IntegrationRequest) (st : state) : state :=
  kv_unset (_hash_key r) st.

(** The value of the [and] chain; callers only test its truth. *)
Definition completed_for_instance (r : IntegrationRequest) (st : state) : pyval :=
  let instance_hash := kv_get st (_hash_key r) in
  py_and (instance_id r)
    (py_and (_requested r)
       (py_and instance_hash (PBool (py_eq_str instance_hash (hash r))))).

Definition is_completed (r : IntegrationRequest) (st : state) : result bool :=
  let completed := published st (relation (_unit r)) in
  found <- dict_get (instance_id r) completed ;;
  Ok (py_eq_str (default PNone found) (hash r)).

(** [all_requests]: one request per joined unit, in order. *)
Definition all_requests (all_joined_units : list RelatedUnit) : list IntegrationRequest :=
  map init all_joined_units.

(** [requests]: the requests that are new or changed. *)
Definition requests (all_joined_units : list RelatedUnit) (st : state)
  : list IntegrationRequest :=
  filter (fun r => changed r st) (all_requests all_joined_units).

Definition application_names (all_joined_units : list RelatedUnit) : gset string :=
  list_to_set (map application_name all_joined_units).

(** [unit_instances]: a dictionary comprehension, so a later unit of the
    same name replaces an earlier one. *)
Definition unit_instances (all_joined_units : list RelatedUnit)
  : gmap string (list (string * pyval)) :=
  fold_left
    (fun acc u => <[unit_name u := [("instance-id", getitem (received u) "instance-id");
                                     ("region", getitem (received u) "region")]]> acc)
    all_joined_units ∅.

(** One turn of the loop of [check_requests]. *)
Definition check_request (acc : bool * state) (r : IntegrationRequest)
  : result (bool * state) :=
  let '(unfulfilled_requests, st) := acc in
  if changed r st then
    Ok (true, hookenv_log ("Marking request for processing for " ++ unit_name (_unit r)
                             ++ " from " ++ py_str (instance_id r)) st)
  else
    done <- is_completed r st ;;
    if negb done && truthy (completed_for_instance r st) then
      st' <- mark_completed r st ;;
      Ok (unfulfilled_requests,
          hookenv_log ("Marking request as completed for " ++ unit_name (_unit r)
                         ++ " from " ++ py_str (instance_id r)) st')
    else Ok (unfulfilled_requests, st).

Fixpoint check_loop (rs : list IntegrationRequest) (acc : bool * state)
  : result (bool * state) :=
  match rs with
  | [] => Ok acc
  | r :: rs' => acc' <- check_request acc r ;; check_loop rs' acc'
  end.

Definition check_requests (all_joined_units : list RelatedUnit) (st : state)
  : result state :=
  out <- check_loop (all_requests all_joined_units) (false, st) ;;
  Ok (clear_flag (expand_name "changed")
        (toggle_flag (expand_name "requested") (fst out) (snd out))).

Definition cleanup (st : state) : state :=
  let st' := fold_left (fun s unit => clear (init unit) s) (all_departed_units st) st in
  clear_flag (expand_name "departed") (clear_departed st').

End Endpoint.

End Provides.

(** ** Objects with identity: what a caller can reach and mutate

    The model above treats values as immutable.  To speak about a caller
    mutating what an accessor returned, this module places the mutable
    containers in a heap: a value is a scalar or a reference to a list or
    dictionary object, [dict(x)] and [list(x)] allocate a new object whose
    items are those of [x] (a shallow copy), and a mutation replaces the
    content of one object in place. *)

Module Alias.
Import Py.

Inductive hval : Type :=
| HNone : hval
| HBool : bool -> hval
| HInt  : Z -> hval
| HStr  : string -> hval
| HRef  : nat -> hval.

Inductive hobj : Type :=
| HList : list hval -> hobj
| HDict : list (hval * hval) -> hobj.

Abbreviation heap := (list hobj).

(** A new object gets the next free address. *)
Definition alloc (o : hobj) (h : heap) : hval * heap := (HRef (length h), (h ++ [o])%list).

(** An in-place mutation of the object at [l]: its content becomes [o]. *)
Definition mutate (l : nat) (o : hobj) (h : heap) : heap := <[l := o]> h.

Definition truthy (h : heap) (v : hval) : bool :=
  match v with
  | HNone => false
  | HBool b => b
  | HInt z => negb (z =? 0)
  | HStr s => negb (String.eqb s "")
  | HRef l =>
      match h !! l with
      | Some (HList []) | Some (HDict []) => false
      | _ => true
      end
  end.

Fixpoint chars (s : string) : list hval :=
  match s with
  | EmptyString => []
  | String c s' => HStr (String c "") :: chars s'
  end.

Definition py_iter (h : heap) (v : hval) : result (list hval) :=
  match v with
  | HStr s => Ok (chars s)
  | HRef l =>
      match h !! l with
      | Some (HList items) => Ok items
      | Some (HDict items) => Ok (map fst items)
      | None => Raise TypeError
      end
  | HNone | HBool _ | HInt _ => Raise TypeError
  end.

Definition hashable (v : hval) : bool :=
  match v with HRef _ => false | _ => true end.

Definition as_int (v : hval) : option Z :=
  match v with
  | HBool b => Some (if b then 1 else 0)
  | HInt z => Some z
  | _ => None
  end.

Definition key_eqb (a b : hval) : bool :=
  match a, b with
  | HNone, HNone => true
  | HStr s, HStr t => String.eqb s t
  | _, _ =>
      match as_int a, as_int b with
      | Some x, Some y => x =? y
      | _, _ => false
      end
  end.

Fixpoint dict_store (k v : hval) (d : list (hval * hval)) : list (hval * hval) :=
  match d with
  | [] => [(k, v)]
  | (k', v') :: d' =>
      if key_eqb k k' then (k', v) :: d' else (k', v') :: dict_store k v d'
  end.

Fixpoint dict_of_pairs (h : heap) (items : list hval) (acc : list (hval * hval))
  : result (list (hval * hval)) :=
  match items with
  | [] => Ok acc
  | it :: rest =>
      kv <- py_iter h it ;;
      match kv with
      | [k; v] =>
          if hashable k then dict_of_pairs h rest (dict_store k v acc)
          else Raise TypeError
      | _ => Raise ValueError
      end
  end.

(** [dict(v)]: always a new object. *)
Definition py_dict (h : heap) (v : hval) : result (hval * heap) :=
  match v with
  | HRef l =>
      match h !! l with
      | Some (HDict items) => Ok (alloc (HDict items) h)
      | Some (HList items) =>
          d <- dict_of_pairs h items [] ;; Ok (alloc (HDict d) h)
      | None => Raise TypeError
      end
  | HStr s => d <- dict_of_pairs h (chars s) [] ;; Ok (alloc (HDict d) h)
  | HNone | HBool _ | HInt _ => Raise TypeError
  end.

(** [list(v)]: always a new object. *)
Definition py_list (h : heap) (v : hval) : result (hval * heap) :=
  items <- py_iter h v ;; Ok (alloc (HList items) h).

(** [dict(received.get(key, {}))]: the literal [{}] is built before the
    lookup. *)
Definition tags_of (key : string) (data : list (string * hval)) (h : heap)
  : result (hval * heap) :=
  let '(dflt, h0) := alloc (HDict []) h in
  py_dict h0 (default dflt (assoc key data)).

(** [list(received[key] or [])]: the literal [[]] is built only when the
    left operand is falsy. *)
Definition patterns_of (key : string) (data : list (string * hval)) (h : heap)
  : result (hval * heap) :=
  let v := default HNone (assoc key data) in
  if truthy h v then py_list h v
  else let '(dflt, h0) := alloc (HList []) h in py_list h0 dflt.

(** [bool(received[key])] *)
Definition flag_of (key : string) (data : list (string * hval)) (h : heap) : bool :=
  truthy h (default HNone (assoc key data)).

Definition instance_tags := tags_of "instance-tags".
Definition instance_security_group_tags := tags_of "instance-security-group-tags".
Definition instance_subnet_tags := tags_of "instance-subnet-tags".
Definition object_storage_access_patterns := patterns_of "object-storage-access-patterns".
Definition object_storage_management_patterns :=
  patterns_of "object-storage-management-patterns".

Definition copying_accessors
  : list (list (string * hval) -> heap -> result (hval * heap)) :=
  [instance_tags; instance_security_group_tags; instance_subnet_tags;
   object_storage_access_patterns; object_storage_management_patterns].

(** The content of a value, read through the heap down to depth [n];
    [TCut] stands for what lies deeper (or for a dangling reference). *)
#[warnings="-register-all"]
Inductive tree : Type :=
| TNone : tree
| TBool : bool -> tree
| TInt  : Z -> tree
| TStr  : string -> tree
| TList : list tree -> tree
| TDict : list (tree * tree) -> tree
| TCut  : tree.

Fixpoint content (n : nat) (h : heap) (v : hval) : tree :=
  match v with
  | HNone => TNone
  | HBool b => TBool b
  | HInt z => TInt z
  | HStr s => TStr s
  | HRef l =>
      match n with
      | O => TCut
      | S k =>
          match h !! l with
          | Some (HList items) => TList (map (content k h) items)
          | Some (HDict items) =>
              TDict (map (fun kv => (content k h (fst kv), content k h (snd kv))) items)
          | None => TCut
          end
      end
  end.

Definition all_some {A} (l : list (option A)) : option (list A) :=
  fold_right (fun o acc => match o, acc with
                           | Some x, Some xs => Some (x :: xs)
                           | _, _ => None
                           end) (Some []) l.

(** The decoded-JSON value a content tree stands for, when it is one:
    complete, and with string keys only. *)
Fixpoint json_of (t : tree) : option pyval :=
  match t with
  | TNone => Some PNone
  | TBool b => Some (PBool b)
  | TInt z => Some (PInt z)
  | TStr s => Some (PStr s)
  | TList l => option_map PList (all_some (map json_of l))
  | TDict d =>
      option_map PDict
        (all_some (map (fun kv => match fst kv, json_of (snd kv) with
                                  | TStr k, Some x => Some (k, x)
                                  | _, _ => None
                                  end) d))
  | TCut => None
  end.

(** The received mapping read through the heap. *)
Definition received_content (n : nat) (h : heap) (data : list (string * hval))
  : list (string * tree) :=
  map (fun kv => (fst kv, content n h (snd kv))) data.

(** The hash a request constructed over [data] gets, when the data reads
    as decoded JSON within depth [n]. *)
Definition hash (n : nat) (h : heap) (data : list (string * hval)) : option string :=
  option_map Provides.content_hash
    (all_some (map (fun kv => option_map (pair (fst kv)) (json_of (snd kv)))
                   (received_content n h data))).

(** References stay below [b]. *)
Definition closed_val (b : nat) (v : hval) : Prop :=
  match v with HRef l => (l < b)%nat | _ => True end.

Definition closed_entry (b : nat) (kv : hval * hval) : Prop :=
  closed_val b (fst kv) /\ closed_val b (snd kv).

Definition closed_obj (b : nat) (o : hobj) : Prop :=
  match o with
  | HList items => Forall (closed_val b) items
  | HDict items => Forall (closed_entry b) items
  end.

(** A well-formed heap has no dangling reference. *)
Definition closed_heap (h : heap) : Prop := Forall (closed_obj (length h)) h.

Definition closed_data (h : heap) (data : list (string * hval)) : Prop :=
  Forall (fun kv => closed_val (length h) (snd kv)) data.

(** [h'] still has every object of [h], unchanged, at its address. *)
Definition agree (h h' : heap) : Prop :=
  (length h <= length h')%nat /\ forall l, (l < length h)%nat -> h' !! l = h !! l.

(** What an accessor call gives, as content. *)
Definition result_content (n : nat) (res : result (hval * heap)) : result tree :=
  match res with
  | Ok (v, h') => Ok (content n h' v)
  | Raise e => Raise e
  end.

(** *** Heap values that stand for decoded JSON *)

(** Two lists related item by item. *)
Fixpoint all2 {A B} (P : A -> B -> Prop) (l : list A) (l' : list B) : Prop :=
  match l, l' with
  | [], [] => True
  | x :: xs, y :: ys => P x y /\ all2 P xs ys
  | _, _ => False
  end.

(** [represents h v r]: read through [h], the heap value [r] is the value
    [v]. *)
Fixpoint represents (h : heap) (v : pyval) (r : hval) : Prop :=
  match v with
  | PNone => r = HNone
  | PBool b => r = HBool b
  | PInt z => r = HInt z
  | PStr s => r = HStr s
  | PList xs =>
      exists l items,
        r = HRef l /\ h !! l = Some (HList items) /\ all2 (represents h) xs items
  | PDict d =>
      exists l items,
        r = HRef l /\ h !! l = Some (HDict items) /\
        all2 (fun kx it => fst it = HStr (fst kx) /\ represents h (snd kx) (snd it)) d items
  end.

(** The received mapping, key by key. *)
Definition represents_data (h : heap) (data : list (string * pyval))
  (hdata : list (string * hval)) : Prop :=
  all2 (fun kx it => fst it = fst kx /\ represents h (snd kx) (snd it)) data hdata.

(** A dictionary in memory, entry by entry. *)
Definition represents_dict (h : heap) (d : pydict) (hd : list (hval * hval)) : Prop :=
  all2 (fun kv it => represents h (fst kv) (fst it) /\ represents h (snd kv) (snd it)) d hd.

(** The content of a value, and how deep it nests. *)
Fixpoint tree_of (v : pyval) : tree :=
  match v with
  | PNone => TNone
  | PBool b => TBool b
  | PInt z => TInt z
  | PStr s => TStr s
  | PList xs => TList (map tree_of xs)
  | PDict d => TDict (map (fun kx => (TStr (fst kx), tree_of (snd kx))) d)
  end.

Fixpoint depth (v : pyval) : nat :=
  match v with
  | PList xs => S (fold_right (fun x m => Nat.max (depth x) m) O xs)
  | PDict d => S (fold_right (fun kx m => Nat.max (depth (snd kx)) m) O d)
  | _ => O
  end.

Definition tree_of_list (xs : list pyval) : tree := TList (map tree_of xs).

Definition tree_of_dict (d : pydict) : tree :=
  TDict (map (fun kv => (tree_of (fst kv), tree_of (snd kv))) d).

Definition depth_list (xs : list pyval) : nat :=
  S (fold_right (fun x m => Nat.max (depth x) m) O xs).

Definition depth_dict (d : pydict) : nat :=
  S (fold_right (fun kv m => Nat.max (Nat.max (depth (fst kv)) (depth (snd kv))) m) O d).

(** A result over values and a result over the heap that are the same
    exception, or the same content at every depth that reaches the bottom
    of the value. *)
Definition same_result {A} (shape : A -> tree) (size : A -> nat)
  (pure : result A) (res : result (hval * heap)) : Prop :=
  match pure with
  | Ok a =>
      exists v h', res = Ok (v, h') /\
                   forall n, (size a <= n)%nat -> content n h' v = shape a
  | Raise e => res = Raise e
  end.

(** Decoded JSON placed in a heap: every list and dictionary becomes an
    object of its own. *)
Fixpoint load (v : pyval) (h : heap) : hval * heap :=
  match v with
  | PNone => (HNone, h)
  | PBool b => (HBool b, h)
  | PInt z => (HInt z, h)
  | PStr s => (HStr s, h)
  | PList l =>
      let '(items, h') :=
        fold_left (fun acc x => let '(r, h1) := load x (snd acc) in ((fst acc ++ [r])%list, h1))
                  l ([], h) in
      alloc (HList items) h'
  | PDict d =>
      let '(items, h') :=
        fold_left (fun acc kx => let '(r, h1) := load (snd kx) (snd acc) in
                                 ((fst acc ++ [(HStr (fst kx), r)])%list, h1))
                  d ([], h) in
      alloc (HDict items) h'
  end.

Definition load_received (data : list (string * pyval)) (h : heap)
  : list (string * hval) * heap :=
  fold_left (fun acc kx => let '(r, h1) := load (snd kx) (snd acc) in
                           ((fst acc ++ [(fst kx, r)])%list, h1))
            data ([], h).

(** What [load] promises for one value. *)
Definition load_ok (v : pyval) : Prop :=
  forall h, exists extra,
    snd (load v h) = (h ++ extra)%list /\
    (closed_heap h -> closed_heap (h ++ extra)) /\
    represents (h ++ extra) v (fst (load v h)).

(** Every key of a dictionary can be one. *)
Definition keys_hashable (d : pydict) : Prop :=
  Forall (fun kv => Py.hashable (fst kv) = true) d.

End Alias.

(** ** Sample participants and states *)

Module Scenario.
Import Py Provides.

(** The endpoint is called [aws]. *)
Definition expand_name : string -> string := Endpoint_expand_name "aws".

Definition unit_with (name : string) (rel : nat) (data : list (string * pyval))
  : RelatedUnit :=
  {| unit_name := name; application_name := "app"; relation := rel; received := data |}.

(** Participant P1 asks for DNS management. *)
Definition p1_data : list (string * pyval) :=
  [("requested", PBool true); ("instance-id", PStr "i-1");
   ("region", PStr "us-east-1"); ("enable-dns-management", PBool true)].

(** The same data with its keys in another order. *)
Definition p1_data_reordered : list (string * pyval) :=
  [("enable-dns-management", PBool true); ("region", PStr "us-east-1");
   ("instance-id", PStr "i-1"); ("requested", PBool true)].

Definition p1 : RelatedUnit := unit_with "app/0" 0 p1_data.

(** P2 has sent nothing yet. *)
Definition p2 : RelatedUnit := unit_with "app/1" 0 [].

(** Malformed participants: a number where a tag mapping belongs, a number
    where a pattern list belongs, a list where the instance id belongs. *)
Definition bad_tags : RelatedUnit := unit_with "app/2" 0 [("instance-tags", PInt 5)].
Definition bad_patterns : RelatedUnit :=
  unit_with "app/3" 0 [("object-storage-access-patterns", PInt 7)].
Definition bad_id : RelatedUnit := unit_with "app/4" 0 [("instance-id", PList [])].

(** Nothing persisted, nothing published, the [changed] flag set. *)
Definition fresh : state :=
  {| kv := ∅; to_publish := ∅; flags := {[expand_name "changed"]};
     all_departed_units := []; log := [] |}.

(** After a restart: P1's hash is persisted but no longer published. *)
Definition restarted : state :=
  {| kv := {[expand_name "request.i-1" := PStr (content_hash p1_data)]};
     to_publish := ∅; flags := {[expand_name "changed"]};
     all_departed_units := []; log := [] |}.

(** P1 was acknowledged and published, and has now departed. *)
Definition departing : state :=
  {| kv := {[expand_name "request.i-1" := PStr (content_hash p1_data)]};
     to_publish := {[0%nat := [(PStr "i-1", PStr (content_hash p1_data))]]};
     flags := {[expand_name "departed"]};
     all_departed_units := [p1]; log := [] |}.

(** P1 after it withdrew the DNS request. *)
Definition p1_updated : RelatedUnit :=
  unit_with "app/0" 0
    [("requested", PBool true); ("instance-id", PStr "i-1");
     ("region", PStr "us-east-1"); ("enable-dns-management", PBool false)].

(** P3, another instance on the same relation. *)
Definition p3 : RelatedUnit :=
  unit_with "app/5" 0 [("requested", PBool true); ("instance-id", PStr "i-2")].

(** A participant with tags and patterns, and the same data as objects in
    a heap. *)
Definition tagged_data : list (string * pyval) :=
  [("instance-id", PStr "i-1");
   ("instance-tags", PDict [("Name", PStr "web"); ("Team", PNone)]);
   ("object-storage-access-patterns", PList [PStr "bucket/*"])].

Definition tagged : RelatedUnit := unit_with "app/6" 0 tagged_data.

Definition tagged_heap : list (string * Alias.hval) * list Alias.hobj :=
  Eval vm_compute in Alias.load_received tagged_data [].

Definition tagged_received : list (string * Alias.hval) := fst tagged_heap.
Definition tagged_objects : list Alias.hobj := snd tagged_heap.

(** The heap after [instance_tags] ran: the default [{}] at address 2 and
    the returned copy at address 3. *)
Definition tagged_copied : list Alias.hobj :=
  (tagged_objects ++
   [Alias.HDict [];
    Alias.HDict [(Alias.HStr "Name", Alias.HStr "web"); (Alias.HStr "Team", Alias.HNone)]])%list.

End Scenario.

(** ** The handler loop and data that differ in key order only *)

Module Usage.
Import Py Provides.

Section Endpoint.
Variable expand_name : string -> string.

(** [for request in rs: request.mark_completed()] *)
Fixpoint mark_all (rs : list IntegrationRequest) (st : state) : result state :=
  match rs with
  | [] => Ok st
  | r :: rs' => st' <- mark_completed expand_name r st ;; mark_all rs' st'
  end.

(** The handler of the class docstring, with the cloud actions left out:
    [for request in aws.requests: ...; request.mark_completed()].  The
    list [aws.requests] is built once, before the loop. *)
Definition handle_requests (all_joined_units : list RelatedUnit) (st : state)
  : result state :=
  mark_all (requests expand_name all_joined_units st) st.

End Endpoint.

(** [reordered v v']: [v'] is [v] with the keys of its mappings, at any
    depth, in another order.  Keys of a mapping are distinct. *)
#[warnings="-register-all"]
Inductive reordered : pyval -> pyval -> Prop :=
| reordered_same : forall v, reordered v v
| reordered_list : forall l l',
    Forall2 reordered l l' -> reordered (PList l) (PList l')
| reordered_dict : forall d d' d'',
    NoDup (map fst d) ->
    Forall2 (fun a b => fst a = fst b /\ reordered (snd a) (snd b)) d d' ->
    Permutation d' d'' ->
    reordered (PDict d) (PDict d'').

(** The entry [unit_instances] holds for a unit. *)
Definition instance_entry (u : RelatedUnit) : list (string * pyval) :=
  [("instance-id", getitem (received u) "instance-id");
   ("region", getitem (received u) "region")].

(** Printable ASCII: from space to tilde. *)
Definition is_ascii_text (c : ascii) : bool := (32 <=? code c) && (code c <=? 126).

End Usage.

(** ** More sample participants *)

Module Scenario2.
Import Py Provides Scenario.

(** A unit of another application, on another relation. *)
Definition q1 : RelatedUnit :=
  {| unit_name := "db/0"; application_name := "db"; relation := 1;
     received := [("requested", PBool true); ("instance-id", PStr "i-9")] |}.

(** The tagged data with the keys of the mapping and of its nested mapping
    in another order. *)
Definition tagged_data_reordered : list (string * pyval) :=
  [("object-storage-access-patterns", PList [PStr "bucket/*"]);
   ("instance-tags", PDict [("Team", PNone); ("Name", PStr "web")]);
   ("instance-id", PStr "i-1")].

(** A pattern field that holds a bare string instead of a list. *)
Definition bare_pattern : RelatedUnit :=
  unit_with "app/7" 0 [("object-storage-access-patterns", PStr "b/*")].

(** P1 acknowledged and published. *)
Definition acknowledged : state :=
  {| kv := {[expand_name "request.i-1" := PStr (content_hash p1_data)]};
     to_publish := {[0%nat := [(PStr "i-1", PStr (content_hash p1_data))]]};
     flags := ∅; all_departed_units := []; log := [] |}.

End Scenario2.

(** * Properties *)

(** ** Dictionary keys and lookups *)

Module PyFacts.
Import Py.

Lemma py_eq_str_true (v : pyval) (s : string) :
  py_eq_str v s = true <-> v = PStr s.
Proof.
  destruct v; simpl; try (split; [discriminate | congruence]).
  rewrite String.eqb_eq. split; congruence.
Qed.

Lemma key_eqb_refl (k : pyval) : hashable k = true -> key_eqb k k = true.
Proof.
  destruct k as [| b | z | s | l | d]; simpl; try discriminate; intros _.
  - reflexivity.
  - apply Z.eqb_refl.
  - apply Z.eqb_refl.
  - apply String.eqb_refl.
Qed.

Lemma key_eqb_sym (a b : pyval) : key_eqb a b = key_eqb b a.
Proof.
  destruct a, b; simpl; try reflexivity;
    try apply Z.eqb_sym; apply String.eqb_sym.
Qed.

Lemma key_eqb_class (a b : pyval) :
  key_eqb a b = true <-> key_class a = key_class b /\ hashable a = true.
Proof.
  destruct a, b; simpl;
    rewrite ?Z.eqb_eq, ?String.eqb_eq;
    (split; [ try discriminate; intros; split; congruence
            | intros [H1 H2]; try discriminate; congruence ]).
Qed.

Lemma key_eqb_trans (a b c : pyval) :
  key_eqb a b = true -> key_eqb b c = true -> key_eqb a c = true.
Proof.
  rewrite !key_eqb_class. intros [H1 H2] [H3 _]. split; congruence.
Qed.

Lemma key_eqb_false_l (k k' k0 : pyval) :
  key_eqb k k0 = false -> key_eqb k0 k' = true -> key_eqb k k' = false.
Proof.
  intros Hne Heq. destruct (key_eqb k k') eqn:E; [| reflexivity].
  rewrite key_eqb_sym in Heq.
  rewrite (key_eqb_trans _ _ _ E Heq) in Hne. discriminate.
Qed.

(** Reading back the key just written. *)
Lemma dict_find_store (k k0 v : pyval) (d : pydict) :
  key_eqb k k0 = true -> dict_find k (dict_store k0 v d) = Some v.
Proof.
  intros Hk. induction d as [| [k' v'] d IH]; simpl.
  - now rewrite Hk.
  - destruct (key_eqb k0 k') eqn:E; simpl.
    + now rewrite (key_eqb_trans _ _ _ Hk E).
    + destruct (key_eqb k k') eqn:E'; [| exact IH].
      rewrite key_eqb_sym in Hk.
      rewrite (key_eqb_trans _ _ _ Hk E') in E. discriminate.
Qed.

(** Writing one key leaves the others as they are. *)
Lemma dict_find_store_other (k k0 v : pyval) (d : pydict) :
  key_eqb k k0 = false -> dict_find k (dict_store k0 v d) = dict_find k d.
Proof.
  intros Hk. induction d as [| [k' v'] d IH]; simpl.
  - now rewrite Hk.
  - destruct (key_eqb k0 k') eqn:E; simpl.
    + now rewrite (key_eqb_false_l _ _ _ Hk E).
    + now rewrite IH.
Qed.

Lemma dict_store_twice (k v : pyval) (d : pydict) :
  hashable k = true -> dict_store k v (dict_store k v d) = dict_store k v d.
Proof.
  intros Hk. induction d as [| [k' v'] d IH]; simpl.
  - now rewrite key_eqb_refl.
  - destruct (key_eqb k k') eqn:E; simpl; rewrite E; [reflexivity | now rewrite IH].
Qed.

End PyFacts.

(** ** The digest is 64 lower-case hexadecimal characters *)

Module Sha256Facts.
Import Py Sha256.

Lemma length_app (a b : string) :
  String.length (a ++ b) = (String.length a + String.length b)%nat.
Proof. induction a as [| c a IH]; simpl; [reflexivity | now rewrite IH]. Qed.

Lemma all_chars_app (p : ascii -> bool) (a b : string) :
  all_chars p (a ++ b) = all_chars p a && all_chars p b.
Proof.
  induction a as [| c a IH]; simpl; [reflexivity |].
  rewrite IH. now rewrite andb_assoc.
Qed.

Lemma hex_digit_is_hex (n : Z) : 0 <= n < 16 -> is_hex (Py.hex_digit n) = true.
Proof.
  intros Hn. rewrite <- (Z2Nat.id n) by lia.
  assert (Hm : (Z.to_nat n < 16)%nat) by lia.
  generalize dependent (Z.to_nat n). intros m Hm.
  do 16 (destruct m as [| m]; [reflexivity |]). lia.
Qed.

Lemma hex_word_length (x : Z) : String.length (hex_word x) = 8%nat.
Proof. reflexivity. Qed.

Lemma hex_word_is_hex (x : Z) : all_chars is_hex (hex_word x) = true.
Proof.
  unfold hex_word.
  cbn [rev seq app map string_of_list_ascii all_chars].
  rewrite !hex_digit_is_hex; [reflexivity | ..]; apply Z.mod_pos_bound; lia.
Qed.

Lemma hexdigest_length (msg : list Z) : String.length (hexdigest msg) = 64%nat.
Proof.
  unfold hexdigest, hex_words.
  rewrite !length_app, !hex_word_length. reflexivity.
Qed.

Lemma hexdigest_is_hex (msg : list Z) : all_chars is_hex (hexdigest msg) = true.
Proof.
  unfold hexdigest, hex_words.
  rewrite !all_chars_app, !hex_word_is_hex. reflexivity.
Qed.

Lemma hexdigest_nonempty (msg : list Z) : hexdigest msg <> "".
Proof.
  intros H. pose proof (hexdigest_length msg) as L. rewrite H in L. discriminate.
Qed.

End Sha256Facts.

(** ** Sorting the items makes the serialisation independent of key order *)

Module JsonFacts.
Import Py Json.

Lemma leb_trans (a b c : string) :
  String.leb a b = true -> String.leb b c = true -> String.leb a c = true.
Proof.
  unfold String.leb. revert b c.
  induction a as [| x a IH]; intros [| y b] [| z c]; simpl; try congruence.
  unfold Ascii.compare.
  destruct (N.compare_spec (N_of_ascii x) (N_of_ascii y)) as [Exy | Lxy | Gxy];
    try congruence;
    destruct (N.compare_spec (N_of_ascii y) (N_of_ascii z)) as [Eyz | Lyz | Gyz];
    try congruence;
    destruct (N.compare_spec (N_of_ascii x) (N_of_ascii z)) as [Exz | Lxz | Gxz];
    try congruence; try lia.
  apply IH.
Qed.

Section Items.
Context {A : Type}.
Implicit Types (x y : string * A) (l : list (string * A)).

#[local] Instance key_le_trans : Transitive (@key_le A).
Proof. intros x y z. unfold key_le. apply leb_trans. Qed.

Lemma key_le_total x y : key_le x y \/ key_le y x.
Proof. apply String.leb_total. Qed.

Lemma key_le_antisym x y : key_le x y -> key_le y x -> fst x = fst y.
Proof. apply String.leb_antisym. Qed.

Lemma insert_perm x l : Permutation (x :: l) (insert x l).
Proof.
  induction l as [| y l IH]; simpl; [reflexivity |].
  destruct (String.leb (fst x) (fst y)); [reflexivity |].
  rewrite perm_swap. now apply perm_skip.
Qed.

Lemma sort_items_perm l : Permutation l (sort_items l).
Proof.
  induction l as [| x l IH]; simpl; [reflexivity |].
  rewrite <- insert_perm. now apply perm_skip.
Qed.

Lemma insert_sorted x l : Sorted key_le l -> Sorted key_le (insert x l).
Proof.
  induction 1 as [| y l Hs IH Hd]; simpl.
  - repeat constructor.
  - destruct (String.leb (fst x) (fst y)) eqn:E.
    + constructor; [now constructor | now constructor].
    + assert (Hyx : key_le y x).
      { destruct (key_le_total x y) as [H | H]; [unfold key_le in H; congruence | exact H]. }
      constructor; [exact IH |].
      destruct Hd as [| z l Hyz]; simpl.
      * now constructor.
      * destruct (String.leb (fst x) (fst z)); now constructor.
Qed.

Lemma sort_items_sorted l : Sorted key_le (sort_items l).
Proof.
  induction l as [| x l IH]; simpl; [constructor | now apply insert_sorted].
Qed.

(** With distinct keys, a list has one sorted arrangement. *)
Lemma sorted_unique l1 : forall l2,
  NoDup (map fst l1) ->
  StronglySorted key_le l1 -> StronglySorted key_le l2 ->
  Permutation l1 l2 -> l1 = l2.
Proof.
  induction l1 as [| a l1 IH]; intros l2 Hnd S1 S2 P.
  - now apply Permutation_nil in P.
  - destruct l2 as [| b l2]; [now apply Permutation_sym, Permutation_nil in P |].
    assert (Hab : a = b).
    { assert (Ia : In a (b :: l2)) by (eapply Permutation_in; [exact P | now left]).
      assert (Ib : In b (a :: l1))
        by (eapply Permutation_in; [apply Permutation_sym; exact P | now left]).
      destruct Ia as [-> | Ia]; [reflexivity |].
      destruct Ib as [-> | Ib]; [reflexivity |].
      apply StronglySorted_inv in S1 as [_ F1]. apply StronglySorted_inv in S2 as [_ F2].
      rewrite Forall_forall in F1, F2.
      pose proof (key_le_antisym _ _ (F1 _ Ib) (F2 _ Ia)) as Hk.
      simpl in Hnd. apply NoDup_cons_iff in Hnd as [Hni _].
      exfalso. apply Hni. rewrite Hk. now apply in_map. }
    subst b. f_equal.
    apply StronglySorted_inv in S1 as [S1 _]. apply StronglySorted_inv in S2 as [S2 _].
    simpl in Hnd. apply NoDup_cons_iff in Hnd as [_ Hnd].
    apply IH; try assumption. eapply Permutation_cons_inv; exact P.
Qed.

Lemma sort_items_permuted l1 l2 :
  NoDup (map fst l1) -> Permutation l1 l2 -> sort_items l1 = sort_items l2.
Proof.
  intros Hnd P.
  apply sorted_unique.
  - eapply Permutation_NoDup; [| exact Hnd].
    apply Permutation_map, sort_items_perm.
  - apply Sorted_StronglySorted; [apply key_le_trans | apply sort_items_sorted].
  - apply Sorted_StronglySorted; [apply key_le_trans | apply sort_items_sorted].
  - rewrite <- (sort_items_perm l1), <- (sort_items_perm l2). exact P.
Qed.

End Items.

(** Permuting the items of a mapping with distinct keys does not change
    its serialisation. *)
Lemma dumps_permuted (d1 d2 : list (string * pyval)) :
  NoDup (map fst d1) -> Permutation d1 d2 -> dumps (PDict d1) = dumps (PDict d2).
Proof.
  intros Hnd P. simpl. do 4 f_equal.
  apply sort_items_permuted.
  - rewrite map_map.
    erewrite map_ext; [exact Hnd |]. now intros [k x].
  - now apply Permutation_map.
Qed.

End JsonFacts.

(** ** The request view and the handlers *)

Module ProvidesFacts.
Import Py PyFacts Provides.

Lemma truthy_and (a b : pyval) : truthy (py_and a b) = truthy a && truthy b.
Proof. unfold py_and. destruct (truthy a) eqn:E; simpl; [reflexivity | exact E]. Qed.

Lemma truthy_getitem (data : list (string * pyval)) (key : string) :
  truthy (getitem data key) = true <-> present_and_truthy data key.
Proof.
  unfold getitem, present_and_truthy. destruct (assoc key data) as [v |]; simpl.
  - split; [intros H; now exists v | intros (w & [= <-] & H); exact H].
  - split; [discriminate | intros (w & [=] & _)].
Qed.

Lemma existsb_same {A} (f g : A -> bool) (l : list A) :
  (forall x, f x = g x) -> existsb f l = existsb g l.
Proof. intros H. induction l as [| x l IH]; simpl; [reflexivity | now rewrite H, IH]. Qed.

Lemma content_hash_nonempty (data : list (string * pyval)) : content_hash data <> "".
Proof. apply Sha256Facts.hexdigest_nonempty. Qed.

Lemma plain_id_hashable (v : pyval) : plain_id v = true -> hashable v = true.
Proof. now destruct v. Qed.

Lemma plain_key_eq (a b : pyval) :
  plain_id a = true -> plain_id b = true -> key_eqb a b = true -> a = b.
Proof.
  destruct a, b; simpl; try discriminate; intros _ _ H; [reflexivity |].
  apply String.eqb_eq in H. now subst.
Qed.

Section Endpoint.
Variable expand_name : string -> string.

Local Abbreviation _hash_key := (Provides._hash_key expand_name).
Local Abbreviation changed := (Provides.changed expand_name).
Local Abbreviation mark_completed := (Provides.mark_completed expand_name).
Local Abbreviation clear := (Provides.clear expand_name).
Local Abbreviation completed_for_instance := (Provides.completed_for_instance expand_name).
Local Abbreviation check_request := (Provides.check_request expand_name).
Local Abbreviation check_loop := (Provides.check_loop expand_name).
Local Abbreviation check_requests := (Provides.check_requests expand_name).
Local Abbreviation cleanup := (Provides.cleanup expand_name).

Implicit Types (r : IntegrationRequest) (st : state) (u : RelatedUnit).

Lemma saved_hash_eq st (key h : string) :
  py_eq_str (kv_get st key) h = true <-> kv st !! key = Some (PStr h).
Proof.
  unfold kv_get. rewrite py_eq_str_true.
  destruct (kv st !! key) as [v |]; simpl; split; congruence.
Qed.

Lemma changed_true r st :
  changed r st = true <->
  truthy (instance_id r) = true /\ truthy (_requested r) = true /\
  kv st !! _hash_key r <> Some (PStr (hash r)).
Proof.
  unfold Provides.changed. rewrite truthy_and.
  destruct (truthy (instance_id r)), (truthy (_requested r)); simpl;
    try (split; [discriminate | intros (? & ? & ?); discriminate]).
  rewrite negb_true_iff, <- not_true_iff_false, saved_hash_eq. tauto.
Qed.

Lemma completed_for_instance_true r st :
  truthy (completed_for_instance r st) = true <->
  truthy (instance_id r) = true /\ truthy (_requested r) = true /\
  kv st !! _hash_key r = Some (PStr (hash r)) /\ hash r <> "".
Proof.
  unfold Provides.completed_for_instance. rewrite !truthy_and. simpl.
  rewrite !andb_true_iff, saved_hash_eq.
  split.
  - intros (Hi & Hq & Hs & He). repeat split; try assumption.
    intros Hh. unfold kv_get in Hs. rewrite He, Hh in Hs. discriminate.
  - intros (Hi & Hq & He & Hh). repeat split; try assumption.
    unfold kv_get. rewrite He. simpl.
    destruct (String.eqb (hash r) "") eqn:E; [| reflexivity].
    apply String.eqb_eq in E. contradiction.
Qed.

Lemma changed_frame r st st' : kv st' = kv st -> changed r st' = changed r st.
Proof. intros H. unfold Provides.changed, kv_get. now rewrite H. Qed.

Lemma completed_for_instance_frame r st st' :
  kv st' = kv st -> completed_for_instance r st' = completed_for_instance r st.
Proof. intros H. unfold Provides.completed_for_instance, kv_get. now rewrite H. Qed.

Lemma is_completed_frame r st st' :
  to_publish st' = to_publish st -> is_completed r st' = is_completed r st.
Proof. intros H. unfold is_completed, published. now rewrite H. Qed.

Lemma is_completed_true r st :
  is_completed r st = Ok true <->
  hashable (instance_id r) = true /\
  dict_find (instance_id r) (published st (relation (_unit r))) = Some (PStr (hash r)).
Proof.
  unfold is_completed, dict_get.
  destruct (hashable (instance_id r)); simpl.
  - destruct (dict_find _ _) as [v |]; simpl.
    + split.
      * intros [= H]. apply py_eq_str_true in H. now subst.
      * intros [_ [= ->]]. f_equal. now apply py_eq_str_true.
    + split; [discriminate | intros [_ [=]]].
  - split; [discriminate | intros [[=] _]].
Qed.

Lemma not_both r st :
  truthy (completed_for_instance r st) = true -> changed r st = false.
Proof.
  intros H. apply completed_for_instance_true in H as (_ & _ & He & _).
  apply not_true_iff_false. rewrite changed_true. intros (_ & _ & Hne). contradiction.
Qed.

(** [mark_completed] on a request that the store already acknowledges
    leaves the store as it is. *)
Lemma mark_completed_result r st :
  hashable (instance_id r) = true ->
  mark_completed r st =
  Ok (publish (relation (_unit r))
        (dict_store (instance_id r) (PStr (hash r)) (published st (relation (_unit r))))
        (kv_set (_hash_key r) (PStr (hash r)) st)).
Proof. intros H. unfold Provides.mark_completed, dict_set. now rewrite H. Qed.

Lemma check_request_ok r (b : bool) st :
  hashable (instance_id r) = true ->
  exists st', check_request (b, st) r = Ok (b || changed r st, st') /\
              kv st' = kv st /\ flags st' = flags st.
Proof.
  intros Hh. unfold Provides.check_request.
  destruct (changed r st) eqn:Hc.
  - eexists. rewrite orb_true_r. split; [reflexivity | now split].
  - rewrite orb_false_r.
    unfold is_completed, dict_get. rewrite Hh. simpl.
    destruct (negb _ && truthy (completed_for_instance r st)) eqn:E.
    + rewrite (mark_completed_result _ _ Hh). simpl.
      eexists. split; [reflexivity |]. simpl. split; [| reflexivity].
      apply andb_true_iff in E as [_ E].
      apply completed_for_instance_true in E as (_ & _ & He & _).
      now apply insert_id.
    + eexists. split; [reflexivity | now split].
Qed.

Lemma check_loop_ok (rs : list IntegrationRequest) : forall (b : bool) st,
  Forall (fun r => hashable (instance_id r) = true) rs ->
  exists st', check_loop rs (b, st) = Ok (b || existsb (fun r => changed r st) rs, st') /\
              kv st' = kv st /\ flags st' = flags st.
Proof.
  induction rs as [| r rs IH]; intros b st Hall; cbn [Provides.check_loop existsb].
  - exists st. now rewrite orb_false_r.
  - apply Forall_cons_iff in Hall as [Hr Hrs].
    destruct (check_request_ok r b st Hr) as (st1 & E1 & K1 & F1).
    rewrite E1. cbn [bind].
    destruct (IH (b || changed r st) st1 Hrs) as (st2 & E2 & K2 & F2).
    exists st2. rewrite E2. split; [| split; congruence].
    f_equal. f_equal. rewrite <- orb_assoc. f_equal. f_equal.
    apply existsb_same. intros x. now apply changed_frame.
Qed.

(** Whenever a turn of the loop returns, it has left the store and the
    flags alone and has raised the indicator exactly for a changed
    request. *)
Lemma check_request_post r (b b1 : bool) st st1 :
  check_request (b, st) r = Ok (b1, st1) ->
  b1 = b || changed r st /\ kv st1 = kv st /\ flags st1 = flags st.
Proof.
  unfold Provides.check_request.
  destruct (changed r st) eqn:Hc.
  - intros [= <- <-]. now rewrite orb_true_r.
  - rewrite orb_false_r.
    destruct (is_completed r st) as [done | e]; cbn [bind]; [| discriminate].
    destruct (negb done && truthy (completed_for_instance r st)) eqn:E.
    + destruct (mark_completed r st) as [st' | e] eqn:Hm; cbn [bind]; [| discriminate].
      intros [= <- <-]. split; [reflexivity |].
      unfold Provides.mark_completed in Hm.
      destruct (dict_set _ _ _) as [c |]; cbn [bind] in Hm; [| discriminate].
      injection Hm as <-. simpl. split; [| reflexivity].
      apply andb_true_iff in E as [_ E].
      apply completed_for_instance_true in E as (_ & _ & He & _).
      now apply insert_id.
    + intros [= <- <-]. now split.
Qed.

Lemma check_loop_post (rs : list IntegrationRequest) : forall (b b' : bool) st st',
  check_loop rs (b, st) = Ok (b', st') ->
  b' = b || existsb (fun r => changed r st) rs /\ kv st' = kv st /\ flags st' = flags st.
Proof.
  induction rs as [| r rs IH]; intros b b' st st'; cbn [Provides.check_loop existsb].
  - intros [= <- <-]. now rewrite orb_false_r.
  - destruct (check_request (b, st) r) as [[b1 st1] | e] eqn:E1; cbn [bind]; [| discriminate].
    apply check_request_post in E1 as (-> & K1 & F1).
    intros E2. apply IH in E2 as (-> & K2 & F2).
    split; [| split; congruence].
    rewrite <- orb_assoc. f_equal. f_equal.
    apply existsb_same. intros x. now apply changed_frame.
Qed.

(** *** Change detection *)

(** C1. [changed] is true exactly when [instance-id] and [requested] are
    both present with a truthy value and the hash persisted under the
    request's key is missing or is not the request's current hash.  Hence
    [changed] is false as soon as one of the two keys is absent or holds a
    falsy value, whatever else was received. *)
Theorem changed_iff u st :
  (changed (init u) st = true <->
     present_and_truthy (received u) "instance-id" /\
     present_and_truthy (received u) "requested" /\
     (kv st !! _hash_key (init u) = None \/
      kv st !! _hash_key (init u) <> Some (PStr (hash (init u))))) /\
  (~ present_and_truthy (received u) "instance-id" \/
   ~ present_and_truthy (received u) "requested" ->
   changed (init u) st = false).
Proof.
  assert (Hiff : changed (init u) st = true <->
     present_and_truthy (received u) "instance-id" /\
     present_and_truthy (received u) "requested" /\
     (kv st !! _hash_key (init u) = None \/
      kv st !! _hash_key (init u) <> Some (PStr (hash (init u))))).
  { rewrite changed_true. unfold instance_id, _requested. rewrite !truthy_getitem.
    cbn [_unit init].
    split; intros (Hi & Hq & Hs); repeat split; try assumption.
    - now right.
    - destruct Hs as [Hs | Hs]; [rewrite Hs; discriminate | exact Hs]. }
  split; [exact Hiff |].
  intros Hno. apply not_true_iff_false. rewrite Hiff. tauto.
Qed.

(** C9. [changed] and [completed_for_instance] are never both true: the
    first needs the persisted hash to be missing or different, the second
    needs it to be there and equal. *)
Theorem changed_excludes_completed_for_instance r st :
  changed r st && truthy (completed_for_instance r st) = false.
Proof.
  destruct (truthy (completed_for_instance r st)) eqn:E.
  - rewrite (not_both _ _ E). reflexivity.
  - apply andb_false_r.
Qed.

(** *** Marking a request completed *)

(** C3. For a request whose instance id is a string, in every state,
    [mark_completed] returns; it has stored the request's hash in the
    persistent store under the request's key and in the published
    [completed] map under the instance id.  Afterwards [changed] is false
    and [is_completed] is true, and marking again changes nothing: the
    second call returns the very same state. *)
Theorem mark_completed_idempotent r st (id : string) :
  instance_id r = PStr id ->
  exists st1,
    mark_completed r st = Ok st1 /\
    kv st1 !! _hash_key r = Some (PStr (hash r)) /\
    dict_find (instance_id r) (published st1 (relation (_unit r))) = Some (PStr (hash r)) /\
    changed r st1 = false /\
    is_completed r st1 = Ok true /\
    mark_completed r st1 = Ok st1.
Proof.
  intros Hid.
  assert (Hh : hashable (instance_id r) = true) by now rewrite Hid.
  destruct (mark_completed r st) as [st1 | e] eqn:Hm.
  2:{ rewrite (mark_completed_result _ _ Hh) in Hm. discriminate Hm. }
  exists st1. split; [reflexivity |].
  rewrite (mark_completed_result _ _ Hh) in Hm. injection Hm as Hst1.
  set (c := dict_store (instance_id r) (PStr (hash r))
              (published st (relation (_unit r)))) in Hst1.
  assert (Hkv : kv st1 !! _hash_key r = Some (PStr (hash r))).
  { rewrite <- Hst1. simpl. apply lookup_insert_eq. }
  assert (Hpub : published st1 (relation (_unit r)) = c).
  { rewrite <- Hst1. unfold published. simpl. now rewrite lookup_insert_eq. }
  assert (Hfind : dict_find (instance_id r) c = Some (PStr (hash r))).
  { unfold c. apply dict_find_store. now apply key_eqb_refl. }
  split; [exact Hkv |]. split; [now rewrite Hpub |].
  split.
  { apply not_true_iff_false. rewrite changed_true. intros (_ & _ & Hne). contradiction. }
  split.
  { apply is_completed_true. split; [exact Hh | now rewrite Hpub]. }
  rewrite (mark_completed_result _ _ Hh). rewrite Hpub. f_equal.
  unfold c at 1. rewrite (dict_store_twice _ _ _ Hh). fold c.
  rewrite <- Hst1. unfold publish, kv_set. simpl. f_equal.
  - apply insert_insert_eq.
  - apply insert_insert_eq.
Qed.

(** *** The pass over the joined units *)

(** C2. For every list of joined units whose instance ids are absent or
    strings and every state, [check_requests] returns, and afterwards the
    [requested] flag is set exactly when some joined unit's request is
    [changed] (so a request that is only [completed_for_instance] without
    being [is_completed] does not set it) and the [changed] flag is
    cleared.  The flags are the same after every pass that returns,
    whatever the instance ids.  The two names must expand to different
    flags. *)
Theorem check_requests_flags (all_joined_units : list RelatedUnit) st :
  expand_name "requested" <> expand_name "changed" ->
  ((forall u, In u all_joined_units -> plain_id (instance_id (init u)) = true) ->
   exists st',
     check_requests all_joined_units st = Ok st' /\
     (expand_name "requested" ∈ flags st' <->
        exists u, In u all_joined_units /\ changed (init u) st = true) /\
     expand_name "changed" ∉ flags st') /\
  (forall st',
     check_requests all_joined_units st = Ok st' ->
     (expand_name "requested" ∈ flags st' <->
        exists u, In u all_joined_units /\ changed (init u) st = true) /\
     expand_name "changed" ∉ flags st').
Proof.
  intros Hne.
  assert (Hpost : forall st',
     check_requests all_joined_units st = Ok st' ->
     (expand_name "requested" ∈ flags st' <->
        exists u, In u all_joined_units /\ changed (init u) st = true) /\
     expand_name "changed" ∉ flags st').
  { unfold Provides.check_requests. intros st' Hrun.
    destruct (check_loop (all_requests all_joined_units) (false, st))
      as [[b st1] | e] eqn:E; cbn [bind fst snd] in Hrun; [| discriminate].
    injection Hrun as <-.
    apply check_loop_post in E as (-> & _ & F). cbn [orb].
    assert (Hex : existsb (fun r => changed r st) (all_requests all_joined_units) = true <->
                  exists u, In u all_joined_units /\ changed (init u) st = true).
    { rewrite existsb_exists. unfold all_requests. split.
      - intros (r & Hr & Hc). apply in_map_iff in Hr as (u & <- & Hu). now exists u.
      - intros (u & Hu & Hc). exists (init u). split; [now apply in_map | exact Hc]. }
    split.
    + rewrite <- Hex.
      destruct (existsb _ _); simpl; rewrite F; split; try discriminate; try reflexivity.
      * intros _. apply elem_of_difference. split.
        -- apply elem_of_union_l. now apply elem_of_singleton.
        -- rewrite elem_of_singleton. exact Hne.
      * intros H. apply elem_of_difference in H as [H _].
        apply elem_of_difference in H as [_ H].
        exfalso. apply H. now apply elem_of_singleton.
    + simpl. intros H. apply elem_of_difference in H as [_ H].
      apply H. now apply elem_of_singleton. }
  split; [| exact Hpost].
  intros Hids.
  destruct (check_requests all_joined_units st) as [st' | e] eqn:Hrun.
  { exists st'. split; [reflexivity |]. now apply Hpost. }
  exfalso. unfold Provides.check_requests in Hrun.
  destruct (check_loop_ok (all_requests all_joined_units) false st) as (st1 & E & _).
  { unfold all_requests. apply Forall_forall. intros r Hr.
    apply in_map_iff in Hr as (u & <- & Hu). now apply plain_id_hashable, Hids. }
  rewrite E in Hrun. discriminate Hrun.
Qed.

(** *** Reconciliation *)

Lemma hash_key_of_id r r' :
  instance_id r' = instance_id r -> _hash_key r' = _hash_key r.
Proof. intros H. unfold Provides._hash_key. now rewrite H. Qed.

(** A turn of the loop for another request does not undo a completion. *)
Lemma check_request_keeps r r2 (b : bool) st :
  plain_id (instance_id r) = true -> plain_id (instance_id r2) = true ->
  truthy (completed_for_instance r st) = true ->
  is_completed r st = Ok true ->
  exists b2 st2, check_request (b, st) r2 = Ok (b2, st2) /\
                 is_completed r st2 = Ok true /\ kv st2 = kv st.
Proof.
  intros Hp Hp2 Hc Hd. unfold Provides.check_request.
  destruct (changed r2 st) eqn:Hch.
  { eexists _, _. split; [reflexivity |]. split; [exact Hd | reflexivity]. }
  pose proof (plain_id_hashable _ Hp2) as Hh2.
  unfold is_completed at 1, dict_get. rewrite Hh2. cbn [bind].
  destruct (negb _ && truthy (completed_for_instance r2 st)) eqn:E.
  2:{ eexists _, _. split; [reflexivity |]. split; [exact Hd | reflexivity]. }
  rewrite (mark_completed_result _ _ Hh2). cbn [bind].
  apply andb_true_iff in E as [_ E].
  apply completed_for_instance_true in E as (_ & _ & He2 & _).
  apply completed_for_instance_true in Hc as (_ & _ & He & _).
  apply is_completed_true in Hd as [Hh Hf].
  eexists _, _. split; [reflexivity |]. split.
  - apply is_completed_true. split; [exact Hh |].
    unfold published. simpl.
    destruct (decide (relation (_unit r2) = relation (_unit r))) as [Hrel | Hrel].
    + rewrite Hrel, lookup_insert_eq. simpl. fold (published st (relation (_unit r))).
      destruct (key_eqb (instance_id r) (instance_id r2)) eqn:K.
      * pose proof (plain_key_eq _ _ Hp Hp2 K) as Hid.
        rewrite (hash_key_of_id r2 r Hid) in He.
        rewrite He2 in He. injection He as He. rewrite He.
        now apply dict_find_store.
      * rewrite dict_find_store_other by exact K. exact Hf.
    + rewrite lookup_insert_ne by exact Hrel. exact Hf.
  - simpl. now apply insert_id.
Qed.

(** A turn of the loop for an acknowledged request publishes it. *)
Lemma check_request_completes r (b : bool) st :
  hashable (instance_id r) = true ->
  truthy (completed_for_instance r st) = true ->
  exists b2 st2, check_request (b, st) r = Ok (b2, st2) /\
                 is_completed r st2 = Ok true /\ kv st2 = kv st.
Proof.
  intros Hh Hc. unfold Provides.check_request.
  rewrite (not_both _ _ Hc).
  destruct (is_completed r st) as [done | e] eqn:Hd.
  2:{ unfold is_completed, dict_get in Hd. rewrite Hh in Hd. discriminate. }
  cbn [bind]. rewrite Hc, andb_true_r.
  destruct done; cbn [negb].
  - eexists _, _. split; [reflexivity |]. now split.
  - rewrite (mark_completed_result _ _ Hh). cbn [bind].
    eexists _, _. split; [reflexivity |]. split.
    + apply is_completed_true. split; [exact Hh |].
      unfold published. simpl. rewrite lookup_insert_eq. simpl.
      apply dict_find_store. now apply key_eqb_refl.
    + simpl. apply completed_for_instance_true in Hc as (_ & _ & He & _).
      now apply insert_id.
Qed.

Lemma check_loop_completes r (rs : list IntegrationRequest) : forall (b : bool) st,
  plain_id (instance_id r) = true ->
  Forall (fun r' => plain_id (instance_id r') = true) rs ->
  truthy (completed_for_instance r st) = true ->
  In r rs \/ is_completed r st = Ok true ->
  exists b' st', check_loop rs (b, st) = Ok (b', st') /\
                 is_completed r st' = Ok true /\ kv st' = kv st.
Proof.
  induction rs as [| r2 rs IH]; intros b st Hp Hall Hc Hor; cbn [Provides.check_loop].
  - destruct Hor as [[] | Hd]. now exists b, st.
  - apply Forall_cons_iff in Hall as [Hp2 Hall].
    assert (Hstep : exists b2 st2, check_request (b, st) r2 = Ok (b2, st2) /\
                      (In r rs \/ is_completed r st2 = Ok true) /\ kv st2 = kv st).
    { destruct Hor as [[-> | Hin] | Hd].
      - destruct (check_request_completes r b st (plain_id_hashable _ Hp) Hc)
          as (b2 & st2 & E & Hd & K).
        exists b2, st2. auto.
      - destruct (check_request_ok r2 b st (plain_id_hashable _ Hp2)) as (st2 & E & K & _).
        eexists _, st2. eauto.
      - destruct (check_request_keeps r r2 b st Hp Hp2 Hc Hd) as (b2 & st2 & E & Hd2 & K).
        exists b2, st2. auto. }
    destruct Hstep as (b2 & st2 & E & Hor2 & K).
    rewrite E. cbn [bind].
    destruct (IH b2 st2 Hp Hall) as (b' & st' & E' & Hd' & K'); [| exact Hor2 |].
    { now rewrite (completed_for_instance_frame _ _ _ K). }
    exists b', st'. split; [exact E' |]. split; [exact Hd' | congruence].
Qed.

(** C5. A request that the persistent store already acknowledges
    ([completed_for_instance]) is published by one run of
    [check_requests], whether or not the published map carried its hash
    before ([is_completed] false is the case of a restart before
    publishing): afterwards [is_completed] is true, and the persistent
    store is as it was.  Instance ids are absent or strings. *)
Theorem check_requests_reconciles (all_joined_units : list RelatedUnit) st u :
  In u all_joined_units ->
  (forall u', In u' all_joined_units -> plain_id (instance_id (init u')) = true) ->
  truthy (completed_for_instance (init u) st) = true ->
  exists st',
    check_requests all_joined_units st = Ok st' /\
    is_completed (init u) st' = Ok true /\
    kv st' = kv st.
Proof.
  intros Hin Hids Hc. unfold Provides.check_requests.
  destruct (check_loop_completes (init u) (all_requests all_joined_units) false st)
    as (b' & st1 & E & Hd & K).
  - now apply Hids.
  - unfold all_requests. apply Forall_forall. intros r Hr.
    apply in_map_iff in Hr as (u' & <- & Hu'). now apply Hids.
  - exact Hc.
  - left. unfold all_requests. now apply in_map.
  - rewrite E. cbn [bind fst snd].
    eexists. split; [reflexivity |]. split.
    + rewrite <- Hd. apply is_completed_frame. now destruct b'.
    + rewrite <- K. now destruct b'.
Qed.

(** *** Departure *)

Lemma clear_all_none (l : list RelatedUnit) : forall st (key : string),
  kv st !! key = None ->
  kv (fold_left (fun s unit => clear (init unit) s) l st) !! key = None.
Proof.
  induction l as [| a l IH]; intros st key H; simpl; [exact H |].
  apply IH. simpl. apply lookup_delete_None. now right.
Qed.

Lemma clear_all_in (l : list RelatedUnit) : forall st u,
  In u l ->
  kv (fold_left (fun s unit => clear (init unit) s) l st) !! _hash_key (init u) = None.
Proof.
  induction l as [| a l IH]; intros st u Hin; simpl; [destruct Hin |].
  destruct Hin as [-> | Hin].
  - apply clear_all_none. simpl. apply lookup_delete_eq.
  - now apply IH.
Qed.

Lemma clear_all_published (l : list RelatedUnit) : forall st,
  to_publish (fold_left (fun s unit => clear (init unit) s) l st) = to_publish st.
Proof.
  induction l as [| a l IH]; intros st; simpl; [reflexivity |]. now rewrite IH.
Qed.

(** C6. [cleanup] removes the persisted entry of every departed unit, so a
    later request with the same instance id (in particular one with the
    same data) whose [instance-id] and [requested] are truthy is
    [changed]. *)
Theorem cleanup_forgets st u :
  In u (all_departed_units st) ->
  kv (cleanup st) !! _hash_key (init u) = None /\
  (forall u', instance_id (init u') = instance_id (init u) ->
              truthy (instance_id (init u')) = true ->
              truthy (_requested (init u')) = true ->
              changed (init u') (cleanup st) = true) /\
  all_departed_units (cleanup st) = [].
Proof.
  intros Hin.
  assert (Hnone : kv (cleanup st) !! _hash_key (init u) = None).
  { unfold Provides.cleanup. simpl. now apply clear_all_in. }
  split; [exact Hnone |]. split; [| reflexivity].
  intros u' Hid Hi Hq. apply changed_true. repeat split; try assumption.
  rewrite (hash_key_of_id _ _ Hid), Hnone. discriminate.
Qed.

Lemma clear_all_other (l : list RelatedUnit) : forall st (key : string),
  (forall u, In u l -> _hash_key (init u) <> key) ->
  kv (fold_left (fun s unit => clear (init unit) s) l st) !! key = kv st !! key.
Proof.
  induction l as [| a l IH]; intros st key H; simpl; [reflexivity |].
  rewrite IH by (intros u Hu; apply H; now right).
  simpl. apply lookup_delete_ne. apply H. now left.
Qed.

(** C10. [clear] removes the request's entry of the persistent store and
    nothing else: the other entries of the store and the published
    [completed] maps stay as they are.  So does [cleanup], for the entries
    of the departed units: the entry of a departed unit's instance is still
    published.  [mark_completed] for an instance id that is a string
    returns, keeps every entry under another key, and keeps the maps of the
    other relations. *)
Theorem published_map_frame :
  (forall r st,
     to_publish (clear r st) = to_publish st /\
     kv (clear r st) !! _hash_key r = None /\
     (forall key, key <> _hash_key r -> kv (clear r st) !! key = kv st !! key)) /\
  (forall st,
     to_publish (cleanup st) = to_publish st /\
     (forall key, (forall u, In u (all_departed_units st) -> _hash_key (init u) <> key) ->
                  kv (cleanup st) !! key = kv st !! key)) /\
  (forall st u, is_completed (init u) (cleanup st) = is_completed (init u) st) /\
  (forall r st (id : string),
     instance_id r = PStr id ->
     exists st',
       mark_completed r st = Ok st' /\
       (forall rel, rel <> relation (_unit r) ->
                    to_publish st' !! rel = to_publish st !! rel) /\
       (forall k, key_eqb k (instance_id r) = false ->
                  dict_find k (published st' (relation (_unit r))) =
                  dict_find k (published st (relation (_unit r))))).
Proof.
  assert (Hcleanup : forall st, to_publish (cleanup st) = to_publish st).
  { intros st. unfold Provides.cleanup. simpl. apply clear_all_published. }
  split.
  { intros r st. split; [reflexivity |]. split.
    - simpl. apply lookup_delete_eq.
    - intros key Hkey. simpl. apply lookup_delete_ne. congruence. }
  split.
  { intros st. split; [apply Hcleanup |].
    intros key H. unfold Provides.cleanup. simpl. now apply clear_all_other. }
  split.
  { intros st u. apply is_completed_frame, Hcleanup. }
  intros r st id Hid.
  assert (Hh : hashable (instance_id r) = true) by now rewrite Hid.
  rewrite (mark_completed_result _ _ Hh). eexists. split; [reflexivity |]. split.
  - intros rel Hrel. simpl. now apply lookup_insert_ne.
  - intros k Hk. unfold published at 1. simpl. rewrite lookup_insert_eq. simpl.
    now apply dict_find_store_other.
Qed.

(** *** Accessors and missing fields *)

Lemma tags_of_spec r (key : string) :
  (assoc key (received (_unit r)) = None -> tags_of r key = Ok []) /\
  (forall d, assoc key (received (_unit r)) = Some (PDict d) ->
     tags_of r key = Ok (map (fun kv => (PStr (fst kv), snd kv)) d)).
Proof.
  unfold tags_of, get. split.
  - now intros ->.
  - now intros d ->.
Qed.

Lemma patterns_of_spec r (key : string) :
  (assoc key (received (_unit r)) = None -> patterns_of r key = Ok []) /\
  (forall v, assoc key (received (_unit r)) = Some v -> truthy v = false ->
     patterns_of r key = Ok []) /\
  (forall l, assoc key (received (_unit r)) = Some (PList l) -> patterns_of r key = Ok l).
Proof.
  unfold patterns_of, getitem, py_or. split; [| split].
  - now intros ->.
  - intros v -> Hv. simpl. now rewrite Hv.
  - intros l ->. simpl. now destruct l.
Qed.

Lemma flag_of_spec r (key : string) :
  assoc key (received (_unit r)) = None -> flag_of r key = false.
Proof. unfold flag_of, getitem. now intros ->. Qed.

Lemma tags_of_number r (key : string) :
  (forall n, assoc key (received (_unit r)) = Some (PInt n) ->
     tags_of r key = Raise TypeError) /\
  (forall b, assoc key (received (_unit r)) = Some (PBool b) ->
     tags_of r key = Raise TypeError).
Proof. unfold tags_of, get. split; intros x ->; reflexivity. Qed.

Lemma patterns_of_number r (key : string) :
  (forall n, n <> 0 -> assoc key (received (_unit r)) = Some (PInt n) ->
     patterns_of r key = Raise TypeError) /\
  (assoc key (received (_unit r)) = Some (PBool true) ->
     patterns_of r key = Raise TypeError).
Proof.
  unfold patterns_of, getitem, py_or. split.
  - intros n Hn ->. simpl. apply Z.eqb_neq in Hn. now rewrite Hn.
  - intros ->. reflexivity.
Qed.

(** C7, as the code has it.  For every received mapping and each accessor
    with its key: when the key is absent the accessor gives its default
    (the empty mapping, the empty list, false); a tag accessor copies a
    mapping; a pattern accessor gives the empty list for a falsy value and
    copies a list; the flags are booleans whatever the value.  A number or
    a boolean in a tag field, and a number other than zero or [true] in a
    pattern field, are not replaced by the default: the accessor raises
    [TypeError].  [is_completed] returns normally when the instance id can
    be a dictionary key, [mark_completed] when it is a string, and
    [check_requests] when the instance id of every joined unit is absent
    or a string.  ([clear] and [cleanup] are total functions.) *)
Theorem accessors_default_when_absent u :
  Forall (fun ka =>
            (assoc (fst ka) (received u) = None -> snd ka (init u) = Ok []) /\
            (forall d, assoc (fst ka) (received u) = Some (PDict d) ->
               snd ka (init u) = Ok (map (fun kv => (PStr (fst kv), snd kv)) d)) /\
            (forall n, assoc (fst ka) (received u) = Some (PInt n) ->
               snd ka (init u) = Raise TypeError) /\
            (forall b, assoc (fst ka) (received u) = Some (PBool b) ->
               snd ka (init u) = Raise TypeError))
         tag_accessors /\
  Forall (fun ka =>
            (assoc (fst ka) (received u) = None -> snd ka (init u) = Ok []) /\
            (forall v, assoc (fst ka) (received u) = Some v -> truthy v = false ->
               snd ka (init u) = Ok []) /\
            (forall l, assoc (fst ka) (received u) = Some (PList l) ->
               snd ka (init u) = Ok l) /\
            (forall n, n <> 0 -> assoc (fst ka) (received u) = Some (PInt n) ->
               snd ka (init u) = Raise TypeError) /\
            (assoc (fst ka) (received u) = Some (PBool true) ->
               snd ka (init u) = Raise TypeError))
         pattern_accessors /\
  Forall (fun ka => assoc (fst ka) (received u) = None -> snd ka (init u) = false)
         flag_accessors /\
  (forall st, hashable (instance_id (init u)) = true ->
     raises (is_completed (init u) st) = false) /\
  (forall st (id : string), instance_id (init u) = PStr id ->
     raises (mark_completed (init u) st) = false) /\
  (forall all_joined_units st,
     (forall u', In u' all_joined_units -> plain_id (instance_id (init u')) = true) ->
     raises (check_requests all_joined_units st) = false).
Proof.
  split; [| split; [| split; [| split; [| split]]]].
  - repeat constructor;
      first [ apply (tags_of_spec (init u)) | apply (tags_of_number (init u)) ].
  - repeat constructor;
      first [ apply (patterns_of_spec (init u)) | apply (patterns_of_number (init u)) ].
  - repeat constructor; apply (flag_of_spec (init u)).
  - intros st Hh. unfold is_completed, dict_get. now rewrite Hh.
  - intros st id Hid.
    assert (Hh : hashable (instance_id (init u)) = true) by now rewrite Hid.
    now rewrite (mark_completed_result _ _ Hh).
  - intros units st Hids. unfold Provides.check_requests.
    destruct (check_loop_ok (all_requests units) false st) as (st1 & E & _).
    { unfold all_requests. apply Forall_forall. intros r Hr.
      apply in_map_iff in Hr as (u' & <- & Hu'). now apply plain_id_hashable, Hids. }
    now rewrite E.
Qed.

End Endpoint.

End ProvidesFacts.

(** ** The request hash *)

Module HashFacts.
Import Py Provides.

(** C4. The hash does not depend on the order of the keys of the received
    mapping (whose keys are distinct, as those of a dictionary are), it is
    a string of 64 lower-case hexadecimal digits, and it is a function of
    the received mapping alone. *)
Theorem hash_order_independent :
  (forall d1 d2 : list (string * pyval),
     NoDup (map fst d1) -> Permutation d1 d2 -> content_hash d1 = content_hash d2) /\
  (forall d : list (string * pyval),
     String.length (content_hash d) = 64%nat /\ all_chars is_hex (content_hash d) = true) /\
  (forall u1 u2 : RelatedUnit,
     received u1 = received u2 -> hash (init u1) = hash (init u2)).
Proof.
  split; [| split].
  - intros d1 d2 Hnd P. unfold content_hash.
    now rewrite (JsonFacts.dumps_permuted d1 d2 Hnd P).
  - intros d. split.
    + apply Sha256Facts.hexdigest_length.
    + apply Sha256Facts.hexdigest_is_hex.
  - intros u1 u2 H. unfold hash, init. simpl. now rewrite H.
Qed.

End HashFacts.

(** ** Defensive copies *)

Module AliasFacts.
Import Py Alias.
Local Open Scope nat_scope.

Lemma agree_refl h : agree h h.
Proof. split; [lia | reflexivity]. Qed.

Lemma agree_app h h' (extra : heap) : agree h h' -> agree h (h' ++ extra)%list.
Proof.
  intros [Hlen Hl]. split.
  - rewrite length_app. lia.
  - intros l Hlt. rewrite lookup_app_l by lia. now apply Hl.
Qed.

Lemma agree_mutate h h' l o : agree h h' -> length h <= l -> agree h (mutate l o h').
Proof.
  intros [Hlen Hl] Hle. unfold mutate. split.
  - rewrite length_insert. lia.
  - intros l' Hlt. rewrite list_lookup_insert_ne by lia. now apply Hl.
Qed.

Lemma closed_lookup h l o : closed_heap h -> h !! l = Some o -> closed_obj (length h) o.
Proof. intros Hc Hl. exact (Forall_lookup_1 _ _ _ _ Hc Hl). Qed.

Lemma assoc_closed h data key v :
  closed_data h data -> assoc key data = Some v -> closed_val (length h) v.
Proof.
  unfold closed_data. induction data as [| [k x] data IH]; simpl; [discriminate |].
  intros Hc. apply Forall_cons_iff in Hc as [Hx Hc].
  destruct (String.eqb key k); [intros [= <-]; exact Hx | now apply IH].
Qed.

(** Reading a value of the old heap gives the same content in any heap
    that agrees with it. *)
Lemma content_agree h h' :
  closed_heap h -> agree h h' ->
  forall n v, closed_val (length h) v -> content n h' v = content n h v.
Proof.
  intros Hc [_ Ha]. induction n as [| k IH]; intros v Hv; destruct v as [| | | | l];
    simpl; try reflexivity.
  simpl in Hv. rewrite (Ha _ Hv).
  destruct (h !! l) as [o |] eqn:E; [| reflexivity].
  pose proof (closed_lookup _ _ _ Hc E) as Ho.
  destruct o as [items | items]; simpl in Ho; f_equal; apply map_ext_in; intros x Hx.
  - apply IH. rewrite Forall_forall in Ho. now apply Ho.
  - rewrite Forall_forall in Ho. destruct (Ho _ Hx) as [H1 H2].
    now rewrite !IH.
Qed.

Lemma truthy_agree h h' v :
  agree h h' -> closed_val (length h) v -> truthy h' v = truthy h v.
Proof. intros [_ Ha] Hv. destruct v; simpl; try reflexivity. now rewrite (Ha _ Hv). Qed.

Lemma py_iter_agree h h' v :
  agree h h' -> closed_val (length h) v -> py_iter h' v = py_iter h v.
Proof. intros [_ Ha] Hv. destruct v; simpl; try reflexivity. now rewrite (Ha _ Hv). Qed.

Lemma chars_closed b s : Forall (closed_val b) (chars s).
Proof. induction s; simpl; constructor; [exact I | assumption]. Qed.

Lemma py_iter_closed h v items :
  closed_heap h -> py_iter h v = Ok items -> Forall (closed_val (length h)) items.
Proof.
  intros Hc. destruct v as [| | | s | l]; simpl; try discriminate.
  - intros [= <-]. apply chars_closed.
  - destruct (h !! l) as [o |] eqn:E; [| discriminate].
    pose proof (closed_lookup _ _ _ Hc E) as Ho.
    destruct o as [xs | xs]; intros [= <-]; simpl in Ho; [exact Ho |].
    rewrite Forall_forall in *. intros x Hx.
    apply in_map_iff in Hx as (kv & <- & Hkv). now apply Ho.
Qed.

Lemma dict_store_closed b k v d :
  closed_val b k -> closed_val b v -> Forall (closed_entry b) d ->
  Forall (closed_entry b) (dict_store k v d).
Proof.
  intros Hk Hv. induction d as [| [k' v'] d IH]; intros Hd; simpl.
  - repeat constructor; assumption.
  - apply Forall_cons_iff in Hd as [[Hk' Hv'] Hd].
    destruct (key_eqb k k'); constructor; try (split; assumption); auto.
Qed.

Lemma dict_of_pairs_agree h h' (items : list hval) : forall acc,
  closed_heap h -> agree h h' ->
  Forall (closed_val (length h)) items ->
  dict_of_pairs h' items acc = dict_of_pairs h items acc.
Proof.
  induction items as [| it items IH]; intros acc Hc Ha Hi; simpl; [reflexivity |].
  apply Forall_cons_iff in Hi as [Hit Hi].
  rewrite (py_iter_agree _ _ _ Ha Hit).
  destruct (py_iter h it) as [kv | e]; simpl; [| reflexivity].
  destruct kv as [| k [| v [| ? ?]]]; try reflexivity.
  destruct (hashable k); [| reflexivity]. now apply IH.
Qed.

Lemma dict_of_pairs_closed h (items : list hval) : forall acc d,
  closed_heap h ->
  Forall (closed_val (length h)) items ->
  Forall (closed_entry (length h)) acc ->
  dict_of_pairs h items acc = Ok d -> Forall (closed_entry (length h)) d.
Proof.
  induction items as [| it items IH]; intros acc d Hc Hi Hacc; simpl.
  - now intros [= <-].
  - apply Forall_cons_iff in Hi as [Hit Hi].
    destruct (py_iter h it) as [kv | e] eqn:E; simpl; [| discriminate].
    pose proof (py_iter_closed _ _ _ Hc E) as Hkv.
    destruct kv as [| k [| v [| ? ?]]]; try discriminate.
    destruct (hashable k); [| discriminate].
    apply Forall_cons_iff in Hkv as [Hk Hkv]. apply Forall_cons_iff in Hkv as [Hv _].
    apply IH; try assumption. now apply dict_store_closed.
Qed.

(** The content of a newly allocated object whose items live in the old
    heap. *)
Lemma content_new_list h h' items n :
  closed_heap h -> agree h h' -> Forall (closed_val (length h)) items ->
  content n (h' ++ [HList items]) (HRef (length h')) =
  match n with O => TCut | S k => TList (map (content k h) items) end.
Proof.
  intros Hc Ha Hi. destruct n as [| k]; simpl; [reflexivity |].
  rewrite list_lookup_middle by reflexivity. f_equal.
  apply map_ext_in. intros x Hx.
  apply content_agree; [assumption | now apply agree_app |].
  rewrite Forall_forall in Hi. now apply Hi.
Qed.

Lemma content_new_dict h h' items n :
  closed_heap h -> agree h h' -> Forall (closed_entry (length h)) items ->
  content n (h' ++ [HDict items]) (HRef (length h')) =
  match n with
  | O => TCut
  | S k => TDict (map (fun kv => (content k h (fst kv), content k h (snd kv))) items)
  end.
Proof.
  intros Hc Ha Hi. destruct n as [| k]; simpl; [reflexivity |].
  rewrite list_lookup_middle by reflexivity. f_equal.
  apply map_ext_in. intros x Hx.
  rewrite Forall_forall in Hi. destruct (Hi _ Hx) as [H1 H2].
  rewrite !(content_agree h (h' ++ [HDict items])); auto using agree_app.
Qed.

Lemma py_dict_returns h v r h1 :
  py_dict h v = Ok (r, h1) -> r = HRef (length h) /\ exists o, h1 = (h ++ [o])%list.
Proof.
  unfold py_dict, alloc. destruct v as [| | | s | l]; try discriminate.
  - destruct (dict_of_pairs h (chars s) []); simpl; [| discriminate].
    intros [= <- <-]. eauto.
  - destruct (h !! l) as [[items | items] |]; try discriminate.
    + destruct (dict_of_pairs h items []); simpl; [| discriminate].
      intros [= <- <-]. eauto.
    + intros [= <- <-]. eauto.
Qed.

Lemma py_list_returns h v r h1 :
  py_list h v = Ok (r, h1) -> r = HRef (length h) /\ exists o, h1 = (h ++ [o])%list.
Proof.
  unfold py_list, alloc. destruct (py_iter h v); simpl; [| discriminate].
  intros [= <- <-]. eauto.
Qed.

Lemma py_dict_agree h h' v n :
  closed_heap h -> agree h h' -> closed_val (length h) v ->
  result_content n (py_dict h' v) = result_content n (py_dict h v).
Proof.
  intros Hc Ha Hv.
  assert (Hpairs : forall items,
    Forall (closed_val (length h)) items ->
    result_content n (d <- dict_of_pairs h' items [] ;; Ok (alloc (HDict d) h')) =
    result_content n (d <- dict_of_pairs h items [] ;; Ok (alloc (HDict d) h))).
  { intros items Hi. rewrite (dict_of_pairs_agree h h' items [] Hc Ha Hi).
    destruct (dict_of_pairs h items []) as [d | e] eqn:E; simpl; [| reflexivity].
    assert (Hd : Forall (closed_entry (length h)) d)
      by (eapply dict_of_pairs_closed; eauto).
    now rewrite (content_new_dict h h'), (content_new_dict h h) by auto using agree_refl. }
  destruct v as [| | | s | l]; simpl; try reflexivity.
  - apply Hpairs, chars_closed.
  - simpl in Hv. destruct Ha as [Hlen Hl]. rewrite (Hl _ Hv).
    destruct (h !! l) as [o |] eqn:E; [| reflexivity].
    pose proof (closed_lookup _ _ _ Hc E) as Ho.
    destruct o as [items | items]; simpl in Ho.
    + now apply Hpairs.
    + simpl.
      now rewrite (content_new_dict h h'), (content_new_dict h h)
        by (auto using agree_refl; now split).
Qed.

Lemma py_list_agree h h' v n :
  closed_heap h -> agree h h' -> closed_val (length h) v ->
  result_content n (py_list h' v) = result_content n (py_list h v).
Proof.
  intros Hc Ha Hv. unfold py_list. rewrite (py_iter_agree _ _ _ Ha Hv).
  destruct (py_iter h v) as [items | e] eqn:E; simpl; [| reflexivity].
  pose proof (py_iter_closed _ _ _ Hc E) as Hi.
  now rewrite (content_new_list h h'), (content_new_list h h) by auto using agree_refl.
Qed.

Lemma tags_of_agree key data h h' n :
  closed_heap h -> closed_data h data -> agree h h' ->
  result_content n (tags_of key data h') = result_content n (tags_of key data h).
Proof.
  intros Hc Hd Ha. unfold tags_of, alloc.
  destruct (assoc key data) as [v |] eqn:E; simpl.
  - pose proof (assoc_closed _ _ _ _ Hd E) as Hv.
    rewrite (py_dict_agree h (h' ++ [HDict []])), (py_dict_agree h (h ++ [HDict []]));
      auto using agree_app, agree_refl.
  - rewrite !list_lookup_middle by reflexivity. simpl.
    rewrite (content_new_dict h (h' ++ [HDict []])), (content_new_dict h (h ++ [HDict []]));
      auto using agree_app, agree_refl.
Qed.

Lemma patterns_of_agree key data h h' n :
  closed_heap h -> closed_data h data -> agree h h' ->
  result_content n (patterns_of key data h') = result_content n (patterns_of key data h).
Proof.
  intros Hc Hd Ha. unfold patterns_of, alloc.
  assert (Hv : closed_val (length h) (default HNone (assoc key data))).
  { destruct (assoc key data) as [v |] eqn:E; simpl; [| exact I].
    now apply (assoc_closed _ _ _ _ Hd E). }
  rewrite (truthy_agree _ _ _ Ha Hv).
  destruct (truthy h _).
  - now apply py_list_agree.
  - unfold py_list. simpl. rewrite !list_lookup_middle by reflexivity. simpl.
    rewrite (content_new_list h (h' ++ [HList []])), (content_new_list h (h ++ [HList []]));
      auto using agree_app, agree_refl.
Qed.

Lemma tags_of_returns key data h v h1 :
  tags_of key data h = Ok (v, h1) ->
  exists l, v = HRef l /\ length h <= l /\ agree h h1.
Proof.
  unfold tags_of, alloc. intros H.
  apply py_dict_returns in H as [-> [o ->]].
  eexists. split; [reflexivity |]. split.
  - rewrite length_app. lia.
  - apply agree_app, agree_app, agree_refl.
Qed.

Lemma patterns_of_returns key data h v h1 :
  patterns_of key data h = Ok (v, h1) ->
  exists l, v = HRef l /\ length h <= l /\ agree h h1.
Proof.
  unfold patterns_of, alloc. destruct (truthy h _); intros H;
    apply py_list_returns in H as [-> [o ->]];
    (eexists; split; [reflexivity |]; split;
     [rewrite ?length_app; lia | repeat apply agree_app; apply agree_refl]).
Qed.

Lemma copying_accessor_cases acc :
  In acc copying_accessors ->
  (exists key, acc = tags_of key) \/ (exists key, acc = patterns_of key).
Proof.
  unfold copying_accessors. simpl.
  intros [<- | [<- | [<- | [<- | [<- | []]]]]]; eauto.
Qed.

Lemma accessor_agree acc data h h' n :
  In acc copying_accessors ->
  closed_heap h -> closed_data h data -> agree h h' ->
  result_content n (acc data h') = result_content n (acc data h).
Proof.
  intros Hin. destruct (copying_accessor_cases _ Hin) as [[key ->] | [key ->]].
  - apply tags_of_agree.
  - apply patterns_of_agree.
Qed.

Lemma accessor_returns acc data h v h1 :
  In acc copying_accessors ->
  acc data h = Ok (v, h1) ->
  exists l, v = HRef l /\ length h <= l /\ agree h h1.
Proof.
  intros Hin. destruct (copying_accessor_cases _ Hin) as [[key ->] | [key ->]].
  - apply tags_of_returns.
  - apply patterns_of_returns.
Qed.

Lemma received_content_agree h h' data n :
  closed_heap h -> closed_data h data -> agree h h' ->
  received_content n h' data = received_content n h data.
Proof.
  intros Hc Hd Ha. unfold received_content. apply map_ext_in. intros [k x] Hx.
  simpl. f_equal. apply content_agree; try assumption.
  unfold closed_data in Hd. rewrite Forall_forall in Hd. exact (Hd _ Hx).
Qed.

(** C8. What [instance_tags], [instance_security_group_tags],
    [instance_subnet_tags], [object_storage_access_patterns] and
    [object_storage_management_patterns] return is a new object: whatever
    the caller then does to it ([mutate] with any content), every object
    that existed before is as it was, the received data read the same to
    any depth, a request constructed afterwards gets the same hash, and
    every one of the five accessors gives the same content as it would have
    given before, as do the flags. *)
Theorem accessors_return_copies acc data h v h1 :
  In acc copying_accessors ->
  closed_heap h -> closed_data h data ->
  acc data h = Ok (v, h1) ->
  exists l,
    v = HRef l /\
    forall o,
      let h2 := mutate l o h1 in
      (forall l', l' < length h -> h2 !! l' = h !! l') /\
      (forall n, received_content n h2 data = received_content n h data) /\
      (forall n, hash n h2 data = hash n h data) /\
      (forall acc' n, In acc' copying_accessors ->
         result_content n (acc' data h2) = result_content n (acc' data h)) /\
      (forall key, flag_of key data h2 = flag_of key data h).
Proof.
  intros Hin Hc Hd Hres.
  destruct (accessor_returns _ _ _ _ _ Hin Hres) as (l & -> & Hle & Ha).
  exists l. split; [reflexivity |]. intros o h2.
  assert (Ha2 : agree h h2) by now apply agree_mutate.
  split; [exact (proj2 Ha2) |]. split; [| split; [| split]].
  - intros n. now apply received_content_agree.
  - intros n. unfold hash. now rewrite (received_content_agree h h2).
  - intros acc' n Hin'. now apply accessor_agree.
  - intros key. unfold flag_of. apply truthy_agree; [exact Ha2 |].
    destruct (assoc key data) as [x |] eqn:E; simpl; [| exact I].
    now apply (assoc_closed _ _ _ _ Hd E).
Qed.

End AliasFacts.

(** ** The heap model and the model over values agree *)

Module AliasRefines.
Import Py Alias AliasFacts.
Local Open Scope nat_scope.

(** Induction on values that reaches the items of lists and mappings. *)
Lemma pyval_nested_ind (P : pyval -> Prop) :
  P PNone -> (forall b, P (PBool b)) -> (forall z, P (PInt z)) -> (forall s, P (PStr s)) ->
  (forall xs, Forall P xs -> P (PList xs)) ->
  (forall d, Forall (fun kx => P (snd kx)) d -> P (PDict d)) ->
  forall v, P v.
Proof.
  intros HN HB HI HS HL HD. fix IH 1. intros [| b | z | s | xs | d].
  - exact HN.
  - apply HB.
  - apply HI.
  - apply HS.
  - apply HL. induction xs as [| x xs IHxs]; constructor; [apply IH | exact IHxs].
  - apply HD. induction d as [| [k x] d IHd]; constructor; [apply IH | exact IHd].
Qed.

Lemma all2_impl {A B} (P Q : A -> B -> Prop) (l : list A) : forall l',
  Forall (fun x => forall y, P x y -> Q x y) l -> all2 P l l' -> all2 Q l l'.
Proof.
  induction l as [| x l IH]; intros [| y l'] HF; simpl; try tauto.
  apply Forall_cons_iff in HF as [Hx HF]. intros [H1 H2]. split; auto.
Qed.

Lemma represents_agree h h' (v : pyval) : forall r,
  agree h h' -> represents h v r -> represents h' v r.
Proof.
  intros r Ha. revert r. induction v as [| b | z | s | xs IH | d IH] using pyval_nested_ind;
    intros r; simpl; auto.
  - intros (l & items & -> & Hl & Hall). exists l, items.
    split; [reflexivity |]. split.
    + destruct Ha as [_ Ha]. rewrite Ha; [exact Hl |]. now apply lookup_lt_Some in Hl.
    + revert Hall. apply all2_impl. exact IH.
  - intros (l & items & -> & Hl & Hall). exists l, items.
    split; [reflexivity |]. split.
    + destruct Ha as [_ Ha]. rewrite Ha; [exact Hl |]. now apply lookup_lt_Some in Hl.
    + revert Hall. apply all2_impl.
      rewrite Forall_forall in *. intros kx Hkx it [H1 H2]. split; [exact H1 |].
      now apply IH.
Qed.

Lemma represents_closed h (v : pyval) r : represents h v r -> closed_val (length h) r.
Proof.
  destruct v; simpl; try (intros ->; exact I).
  - intros (l' & items & -> & Hl & _). simpl. now apply lookup_lt_Some in Hl.
  - intros (l' & items & -> & Hl & _). simpl. now apply lookup_lt_Some in Hl.
Qed.

Lemma represents_truthy h (v : pyval) r :
  represents h v r -> Alias.truthy h r = Py.truthy v.
Proof.
  destruct v as [| b | z | s | xs | d]; simpl; try (intros ->; reflexivity).
  - intros (l & items & -> & Hl & Hall). simpl. rewrite Hl.
    destruct xs, items; simpl in Hall; tauto.
  - intros (l & items & -> & Hl & Hall). simpl. rewrite Hl.
    destruct d, items; simpl in Hall; tauto.
Qed.

Lemma represents_content h (v : pyval) : forall r n,
  represents h v r -> depth v <= n -> content n h r = tree_of v.
Proof.
  induction v as [| b | z | s | xs IH | d IH] using pyval_nested_ind;
    intros r n; simpl; try (intros -> _; now destruct n).
  - intros (l & items & -> & Hl & Hall) Hn.
    destruct n as [| k]; [lia |]. simpl. rewrite Hl. f_equal.
    apply le_S_n in Hn. clear Hl. revert items Hall Hn.
    induction xs as [| x xs IHxs]; intros [| it items]; simpl; try tauto.
    apply Forall_cons_iff in IH as [Hx IH].
    intros [H1 H2] Hn. f_equal; [apply Hx; [exact H1 | lia] | apply IHxs; [exact IH | exact H2 | lia]].
  - intros (l & items & -> & Hl & Hall) Hn.
    destruct n as [| k]; [lia |]. simpl. rewrite Hl. f_equal.
    apply le_S_n in Hn. clear Hl. revert items Hall Hn.
    induction d as [| [key x] d IHd]; intros [| [rk rx] items]; simpl; try tauto.
    apply Forall_cons_iff in IH as [Hx IH].
    intros [[H0 H1] H2] Hn. simpl in *. subst rk. f_equal.
    + f_equal; [now destruct k | apply Hx; [exact H1 | lia]].
    + apply IHd; [exact IH | exact H2 | lia].
Qed.

(** *** Loading decoded JSON gives a well-formed heap that represents it *)

Lemma closed_val_mono b b' r : b <= b' -> closed_val b r -> closed_val b' r.
Proof. destruct r; simpl; auto. lia. Qed.

Lemma closed_obj_mono b b' o : b <= b' -> closed_obj b o -> closed_obj b' o.
Proof.
  intros Hb. destruct o as [items | items]; simpl; apply Forall_impl.
  - intros r. now apply closed_val_mono.
  - intros [k x] [H1 H2]. split; eapply closed_val_mono; eauto.
Qed.

Lemma closed_heap_alloc h o :
  closed_heap h -> closed_obj (length h) o -> closed_heap (h ++ [o]).
Proof.
  unfold closed_heap. intros Hc Ho. rewrite length_app. simpl.
  apply Forall_app. split.
  - eapply Forall_impl; [| exact Hc]. intros o'. apply closed_obj_mono. lia.
  - constructor; [| constructor]. eapply closed_obj_mono; [| exact Ho]. lia.
Qed.

Lemma agree_app_self h (extra : heap) : agree h (h ++ extra).
Proof. apply agree_app, agree_refl. Qed.

Lemma all2_represents_closed h (xs : list pyval) : forall items,
  all2 (represents h) xs items -> Forall (closed_val (length h)) items.
Proof.
  induction xs as [| x xs IH]; intros [| it items]; simpl; try tauto.
  - constructor.
  - intros [H1 H2]. constructor; [now apply (represents_closed h x) | now apply IH].
Qed.

Lemma load_items (xs : list pyval) :
  Forall load_ok xs ->
  forall acc h,
    let res := fold_left (fun acc x => let '(r, h1) := load x (snd acc) in
                                       ((fst acc ++ [r])%list, h1)) xs (acc, h) in
    exists rs extra,
      fst res = (acc ++ rs)%list /\ snd res = (h ++ extra)%list /\
      (closed_heap h -> closed_heap (h ++ extra)) /\
      all2 (represents (h ++ extra)) xs rs.
Proof.
  induction xs as [| x xs IH]; intros HF acc h; simpl.
  - exists [], []. rewrite !app_nil_r. auto.
  - apply Forall_cons_iff in HF as [Hx HF].
    destruct (Hx h) as (e1 & Hs & Hc & Hr).
    destruct (load x h) as [r h1] eqn:E. simpl in Hs, Hr. subst h1.
    destruct (IH HF (acc ++ [r])%list (h ++ e1)%list) as (rs & e2 & Hf & Hs2 & Hc2 & Hall).
    exists (r :: rs), (e1 ++ e2)%list.
    rewrite Hf, Hs2, <- !app_assoc. simpl.
    split; [reflexivity |]. split; [reflexivity |]. split.
    + intros Hh. rewrite app_assoc. auto.
    + rewrite app_assoc. split; [| exact Hall].
      eapply represents_agree; [apply agree_app_self | exact Hr].
Qed.

Lemma load_entries (d : list (string * pyval)) :
  Forall (fun kx => load_ok (snd kx)) d ->
  forall acc h,
    let res := fold_left (fun acc kx => let '(r, h1) := load (snd kx) (snd acc) in
                                        ((fst acc ++ [(HStr (fst kx), r)])%list, h1))
                         d (acc, h) in
    exists rs extra,
      fst res = (acc ++ rs)%list /\ snd res = (h ++ extra)%list /\
      (closed_heap h -> closed_heap (h ++ extra)) /\
      all2 (fun kx it => fst it = HStr (fst kx) /\ represents (h ++ extra) (snd kx) (snd it))
           d rs.
Proof.
  induction d as [| [k x] d IH]; intros HF acc h; simpl.
  - exists [], []. rewrite !app_nil_r. auto.
  - apply Forall_cons_iff in HF as [Hx HF]. simpl in Hx.
    destruct (Hx h) as (e1 & Hs & Hc & Hr).
    destruct (load x h) as [r h1] eqn:E. simpl in Hs, Hr. subst h1.
    destruct (IH HF (acc ++ [(HStr k, r)])%list (h ++ e1)%list)
      as (rs & e2 & Hf & Hs2 & Hc2 & Hall).
    exists ((HStr k, r) :: rs), (e1 ++ e2)%list.
    rewrite Hf, Hs2, <- !app_assoc. simpl.
    split; [reflexivity |]. split; [reflexivity |]. split.
    + intros Hh. rewrite app_assoc. auto.
    + rewrite app_assoc. split; [| exact Hall]. split; [reflexivity |].
      eapply represents_agree; [apply agree_app_self | exact Hr].
Qed.

Lemma load_represents (v : pyval) : load_ok v.
Proof.
  induction v as [| b | z | s | xs IH | d IH] using pyval_nested_ind;
    try solve [intros h; exists []; rewrite app_nil_r; simpl; auto].
  - intros h. simpl.
    destruct (load_items xs IH [] h) as (rs & extra & Hf & Hs & Hc & Hall).
    destruct (fold_left _ xs ([], h)) as [items h'] eqn:E. simpl in Hf, Hs. subst items h'.
    exists (extra ++ [HList rs])%list. simpl. rewrite app_assoc.
    split; [reflexivity |]. split.
    + intros Hh. apply closed_heap_alloc; [auto |]. simpl.
      now apply (all2_represents_closed _ xs).
    + exists (length (h ++ extra)), rs. split; [reflexivity |].
      split; [now apply list_lookup_middle |].
      revert Hall. apply all2_impl, Forall_forall. intros x _ r.
      apply represents_agree, agree_app_self.
  - intros h. simpl.
    destruct (load_entries d IH [] h) as (rs & extra & Hf & Hs & Hc & Hall).
    destruct (fold_left _ d ([], h)) as [items h'] eqn:E. simpl in Hf, Hs. subst items h'.
    exists (extra ++ [HDict rs])%list. simpl. rewrite app_assoc.
    split; [reflexivity |]. split.
    + intros Hh. apply closed_heap_alloc; [auto |]. simpl.
      clear - Hall. revert rs Hall.
      induction d as [| kx d IHd]; intros [| it rs]; simpl; try tauto; [constructor |].
      intros [[H1 H2] H3]. constructor; [| now apply IHd].
      split; [rewrite H1; exact I | now apply (represents_closed _ (snd kx))].
    + exists (length (h ++ extra)), rs. split; [reflexivity |].
      split; [now apply list_lookup_middle |].
      revert Hall. apply all2_impl, Forall_forall. intros kx _ it [H1 H2].
      split; [exact H1 |]. revert H2. apply represents_agree, agree_app_self.
Qed.

Lemma represents_data_closed h data hdata :
  represents_data h data hdata -> closed_data h hdata.
Proof.
  unfold represents_data, closed_data. revert hdata.
  induction data as [| kx data IH]; intros [| it hdata]; simpl; try tauto; [constructor |].
  intros [[_ H2] H3]. constructor; [now apply (represents_closed _ (snd kx)) | now apply IH].
Qed.

(** Any decoded JSON can be loaded, and the heap it gives is well formed
    and represents it. *)
Lemma load_received_represents (data : list (string * pyval)) (h : heap) :
  closed_heap h ->
  closed_heap (snd (load_received data h)) /\
  agree h (snd (load_received data h)) /\
  represents_data (snd (load_received data h)) data (fst (load_received data h)) /\
  closed_data (snd (load_received data h)) (fst (load_received data h)).
Proof.
  intros Hh. unfold load_received.
  assert (Hgen : forall acc h0,
    let res := fold_left (fun acc kx => let '(r, h1) := load (snd kx) (snd acc) in
                                        ((fst acc ++ [(fst kx, r)])%list, h1))
                         data (acc, h0) in
    exists rs extra,
      fst res = (acc ++ rs)%list /\ snd res = (h0 ++ extra)%list /\
      (closed_heap h0 -> closed_heap (h0 ++ extra)) /\
      represents_data (h0 ++ extra) data rs).
  { unfold represents_data. induction data as [| [k x] data IH]; intros acc h0; simpl.
    - exists [], []. rewrite !app_nil_r. auto.
    - destruct (load_represents x h0) as (e1 & Hs & Hc & Hr).
      destruct (load x h0) as [r h1] eqn:E. simpl in Hs, Hr. subst h1.
      destruct (IH (acc ++ [(k, r)])%list (h0 ++ e1)%list) as (rs & e2 & Hf & Hs2 & Hc2 & Hall).
      exists ((k, r) :: rs), (e1 ++ e2)%list.
      rewrite Hf, Hs2, <- !app_assoc. simpl.
      split; [reflexivity |]. split; [reflexivity |]. split.
      + intros Hh0. rewrite app_assoc. auto.
      + rewrite app_assoc. split; [| exact Hall]. split; [reflexivity |].
        eapply represents_agree; [apply agree_app_self | exact Hr]. }
  destruct (Hgen [] h) as (rs & extra & Hf & Hs & Hc & Hall).
  simpl in Hf. rewrite Hf, Hs.
  split; [auto |]. split; [apply agree_app_self |]. split; [exact Hall |].
  now apply (represents_data_closed _ data).
Qed.

(** *** The heap operations compute what the operations on values compute *)

Lemma represents_hashable h (v : pyval) r :
  represents h v r -> Alias.hashable r = Py.hashable v.
Proof.
  destruct v; simpl; try (intros ->; reflexivity);
    intros (l' & items & -> & _); reflexivity.
Qed.

Lemma represents_key_eqb h (k k' : pyval) rk rk' :
  represents h k rk -> represents h k' rk' ->
  Py.hashable k = true -> Py.hashable k' = true ->
  Alias.key_eqb rk rk' = Py.key_eqb k k'.
Proof.
  destruct k, k'; simpl; try discriminate; intros -> -> _ _; reflexivity.
Qed.

Lemma represents_chars h s : all2 (represents h) (Py.chars s) (Alias.chars s).
Proof. induction s; simpl; auto. Qed.

Lemma represents_iter h (v : pyval) r :
  represents h v r ->
  match Py.py_iter v with
  | Ok xs => exists items, Alias.py_iter h r = Ok items /\ all2 (represents h) xs items
  | Raise e => Alias.py_iter h r = Raise e
  end.
Proof.
  destruct v as [| b | z | s | xs | d]; simpl; try (intros ->; reflexivity).
  - intros ->. simpl. eexists. split; [reflexivity | apply represents_chars].
  - intros (l & items & -> & Hl & Hall). simpl. rewrite Hl. eauto.
  - intros (l & items & -> & Hl & Hall). simpl. rewrite Hl.
    eexists. split; [reflexivity |].
    clear Hl. revert items Hall.
    induction d as [| kx d IH]; intros [| it items]; simpl; try tauto.
    intros [[H1 _] H2]. split; [exact H1 | now apply IH].
Qed.

Lemma dict_store_hashable (k v : pyval) (d : pydict) :
  Py.hashable k = true -> keys_hashable d -> keys_hashable (Py.dict_store k v d).
Proof.
  unfold keys_hashable. intros Hk. induction d as [| [k' v'] d IH]; simpl; intros Hd.
  - now constructor.
  - apply Forall_cons_iff in Hd as [Hk' Hd].
    destruct (Py.key_eqb k k'); constructor; auto.
Qed.

Lemma represents_dict_store h (k v : pyval) rk rv (d : pydict) : forall rd,
  represents h k rk -> represents h v rv -> Py.hashable k = true ->
  keys_hashable d -> represents_dict h d rd ->
  represents_dict h (Py.dict_store k v d) (Alias.dict_store rk rv rd).
Proof.
  unfold represents_dict, keys_hashable. intros rd Hk Hv Hh. revert rd.
  induction d as [| [k' v'] d IH]; intros [| [rk' rv'] rd] Hd; simpl; try tauto.
  apply Forall_cons_iff in Hd as [Hk' Hd]. simpl in Hk'.
  intros [[H1 H2] H3]. simpl in H1, H2.
  rewrite (represents_key_eqb h k k' rk rk') by assumption.
  destruct (Py.key_eqb k k'); simpl; auto.
Qed.

Lemma represents_dict_of_pairs h (xs : list pyval) : forall items (acc : pydict) racc,
  all2 (represents h) xs items ->
  keys_hashable acc -> represents_dict h acc racc ->
  match Py.dict_of_pairs xs acc with
  | Ok d => exists rd, Alias.dict_of_pairs h items racc = Ok rd /\ represents_dict h d rd
  | Raise e => Alias.dict_of_pairs h items racc = Raise e
  end.
Proof.
  induction xs as [| x xs IH]; intros [| it items] acc racc; simpl; try tauto.
  - intros _ _ Hacc. eauto.
  - intros [Hx Hxs] Hk Hacc.
    pose proof (represents_iter h x it Hx) as Hit.
    destruct (Py.py_iter x) as [kv | e]; simpl.
    2:{ now rewrite Hit. }
    destruct Hit as (rkv & -> & Hkv). simpl.
    destruct kv as [| k [| v [| ? ?]]], rkv as [| rk [| rv [| ? ?]]];
      simpl in Hkv; try tauto; try reflexivity.
    destruct Hkv as (Hrk & Hrv & _).
    unfold Py.dict_set. rewrite (represents_hashable h k rk Hrk).
    destruct (Py.hashable k) eqn:Hh; simpl; [| reflexivity].
    apply IH; [exact Hxs | now apply dict_store_hashable |].
    now apply represents_dict_store.
Qed.

Lemma represents_py_dict h (v : pyval) r :
  represents h v r ->
  match Py.py_dict v with
  | Ok d => exists rd, Alias.py_dict h r = Ok (HRef (length h), (h ++ [HDict rd])%list) /\
                       represents_dict h d rd
  | Raise e => Alias.py_dict h r = Raise e
  end.
Proof.
  assert (Hpairs : forall xs items, all2 (represents h) xs items ->
    match Py.dict_of_pairs xs [] with
    | Ok d => exists rd,
        (d0 <- Alias.dict_of_pairs h items [] ;; Ok (alloc (HDict d0) h))
          = Ok (HRef (length h), (h ++ [HDict rd])%list) /\ represents_dict h d rd
    | Raise e => (d0 <- Alias.dict_of_pairs h items [] ;; Ok (alloc (HDict d0) h)) = Raise e
    end).
  { intros xs items Hall.
    pose proof (represents_dict_of_pairs h xs items [] [] Hall (Forall_nil _) I) as H.
    destruct (Py.dict_of_pairs xs []) as [d | e].
    - destruct H as (rd & -> & Hrd). simpl. eauto.
    - now rewrite H. }
  destruct v as [| b | z | s | xs | d]; simpl; try (intros ->; reflexivity).
  - intros ->. simpl. apply Hpairs, represents_chars.
  - intros (l & items & -> & Hl & Hall). simpl. rewrite Hl. now apply Hpairs.
  - intros (l & items & -> & Hl & Hall). simpl. rewrite Hl.
    exists items. split; [reflexivity |].
    unfold represents_dict. clear Hl. revert items Hall.
    induction d as [| kx d IH]; intros [| it items]; simpl; try tauto.
    intros [[H1 H2] H3]. split; [split; [exact H1 | exact H2] | now apply IH].
Qed.

Lemma content_entries h h' (d : pydict) k : forall rd,
  agree h h' -> represents_dict h d rd ->
  fold_right (fun kv m => Nat.max (Nat.max (depth (fst kv)) (depth (snd kv))) m) O d <= k ->
  map (fun it => (content k h' (fst it), content k h' (snd it))) rd =
  map (fun kv => (tree_of (fst kv), tree_of (snd kv))) d.
Proof.
  unfold represents_dict. intros rd Ha. revert rd.
  induction d as [| kv d IH]; intros [| it rd]; simpl; try tauto.
  intros [[H1 H2] H3] Hn. f_equal.
  - f_equal; apply represents_content; try lia;
      (eapply represents_agree; [exact Ha | eassumption]).
  - apply IH; [exact H3 | lia].
Qed.

Lemma content_items h h' (xs : list pyval) k : forall items,
  agree h h' -> all2 (represents h) xs items ->
  fold_right (fun x m => Nat.max (depth x) m) O xs <= k ->
  map (content k h') items = map tree_of xs.
Proof.
  intros items Ha. revert items.
  induction xs as [| x xs IH]; intros [| it items]; simpl; try tauto.
  intros [H1 H2] Hn. f_equal.
  - apply represents_content; try lia.
    eapply represents_agree; [exact Ha | eassumption].
  - apply IH; [exact H2 | lia].
Qed.

Lemma content_dict h (d : pydict) rd n :
  represents_dict h d rd -> depth_dict d <= n ->
  content n (h ++ [HDict rd]) (HRef (length h)) = tree_of_dict d.
Proof.
  intros Hd Hn. unfold depth_dict in Hn. destruct n as [| k]; [lia |]. apply le_S_n in Hn.
  simpl. rewrite list_lookup_middle by reflexivity. unfold tree_of_dict. f_equal.
  apply (content_entries h); [apply agree_app_self | exact Hd | exact Hn].
Qed.

Lemma content_list h (xs : list pyval) items n :
  all2 (represents h) xs items -> depth_list xs <= n ->
  content n (h ++ [HList items]) (HRef (length h)) = tree_of_list xs.
Proof.
  intros Hd Hn. unfold depth_list in Hn. destruct n as [| k]; [lia |]. apply le_S_n in Hn.
  simpl. rewrite list_lookup_middle by reflexivity. unfold tree_of_list. f_equal.
  apply (content_items h); [apply agree_app_self | exact Hd | exact Hn].
Qed.

Lemma represents_assoc h data hdata key :
  represents_data h data hdata ->
  match assoc key data with
  | Some v => exists r, assoc key hdata = Some r /\ represents h v r
  | None => assoc key hdata = None
  end.
Proof.
  unfold represents_data. revert hdata.
  induction data as [| [k x] data IH]; intros [| [k' r] hdata]; simpl; try tauto.
  intros [[H1 H2] H3]. simpl in H1, H2. subst k'.
  destruct (String.eqb key k); [eauto | now apply IH].
Qed.

Lemma tags_of_refines h data hdata key r :
  Provides.received (Provides._unit r) = data ->
  represents_data h data hdata ->
  same_result tree_of_dict depth_dict (Provides.tags_of r key) (Alias.tags_of key hdata h).
Proof.
  intros <- Hd. unfold Provides.tags_of, Provides.get, Alias.tags_of, alloc.
  set (h0 := (h ++ [HDict []])%list).
  assert (Hv : represents h0 (default (PDict []) (assoc key (Provides.received (Provides._unit r))))
                          (default (HRef (length h)) (assoc key hdata))).
  { pose proof (represents_assoc h _ hdata key Hd) as Ha.
    destruct (assoc key _) as [v |].
    - destruct Ha as (rv & -> & Hr). simpl.
      eapply represents_agree; [apply agree_app_self | exact Hr].
    - rewrite Ha. simpl. exists (length h), []. split; [reflexivity |].
      split; [now apply list_lookup_middle | exact I]. }
  pose proof (represents_py_dict h0 _ _ Hv) as Hp.
  unfold same_result. destruct (Py.py_dict _) as [d | e]; [| exact Hp].
  destruct Hp as (rd & -> & Hrd). eexists _, _. split; [reflexivity |].
  intros n Hn. now apply content_dict.
Qed.

Lemma patterns_of_refines h data hdata key r :
  Provides.received (Provides._unit r) = data ->
  represents_data h data hdata ->
  same_result tree_of_list depth_list
    (Provides.patterns_of r key) (Alias.patterns_of key hdata h).
Proof.
  intros <- Hd. unfold Provides.patterns_of, Provides.getitem, Alias.patterns_of, alloc.
  assert (Hv : represents h (default PNone (assoc key (Provides.received (Provides._unit r))))
                          (default HNone (assoc key hdata))).
  { pose proof (represents_assoc h _ hdata key Hd) as Ha.
    destruct (assoc key _) as [v |].
    - destruct Ha as (rv & -> & Hr). exact Hr.
    - rewrite Ha. reflexivity. }
  rewrite (represents_truthy _ _ _ Hv). unfold Py.py_or, Py.py_list, Alias.py_list.
  destruct (Py.truthy _).
  - pose proof (represents_iter h _ _ Hv) as Hi.
    unfold same_result. destruct (Py.py_iter _) as [xs | e]; simpl.
    + destruct Hi as (items & -> & Hall). simpl. eexists _, _. split; [reflexivity |].
      intros n Hn. now apply content_list.
    + now rewrite Hi.
  - simpl. rewrite list_lookup_middle by reflexivity. simpl.
    eexists _, _. split; [reflexivity |].
    intros n Hn. apply (content_list _ [] []); [exact I | exact Hn].
Qed.

Lemma flag_of_refines h data hdata key r :
  Provides.received (Provides._unit r) = data ->
  represents_data h data hdata ->
  Alias.flag_of key hdata h = Provides.flag_of r key.
Proof.
  intros <- Hd. unfold Provides.flag_of, Provides.getitem, Alias.flag_of.
  apply represents_truthy.
  pose proof (represents_assoc h _ hdata key Hd) as Ha.
  destruct (assoc key _) as [v |].
  - destruct Ha as (rv & -> & Hr). exact Hr.
  - rewrite Ha. reflexivity.
Qed.

Lemma json_of_tree_of (v : pyval) : json_of (tree_of v) = Some v.
Proof.
  induction v as [| b | z | s | xs IH | d IH] using pyval_nested_ind; simpl; try reflexivity.
  - assert (H : all_some (map json_of (map tree_of xs)) = Some xs).
    { induction xs as [| x xs IHxs]; simpl; [reflexivity |].
      apply Forall_cons_iff in IH as [Hx IH]. now rewrite Hx, (IHxs IH). }
    now rewrite H.
  - assert (H : all_some (map (fun kv => match fst kv, json_of (snd kv) with
                                          | TStr k, Some x => Some (k, x)
                                          | _, _ => None
                                          end)
                              (map (fun kx => (TStr (fst kx), tree_of (snd kx))) d)) = Some d).
    { induction d as [| [k x] d IHd]; simpl; [reflexivity |].
      apply Forall_cons_iff in IH as [Hx IH]. simpl in Hx. now rewrite Hx, (IHd IH). }
    now rewrite H.
Qed.

Lemma hash_refines h data hdata n :
  represents_data h data hdata -> depth (PDict data) <= n ->
  Alias.hash n h hdata = Some (Provides.content_hash data).
Proof.
  intros Hd Hn. unfold Alias.hash, received_content.
  assert (H : all_some (map (fun kv => option_map (pair (fst kv)) (json_of (snd kv)))
                            (map (fun kv => (fst kv, content n h (snd kv))) hdata))
              = Some data).
  { simpl in Hn. unfold represents_data in Hd. revert hdata Hd Hn.
    induction data as [| [k x] data IH]; intros [| [k' r] hdata]; simpl; try tauto.
    intros [[H1 H2] H3] Hn. simpl in H1, H2. subst k'.
    rewrite (represents_content h x r n H2) by lia.
    rewrite json_of_tree_of. simpl. rewrite IH; [reflexivity | exact H3 | lia]. }
  now rewrite H.
Qed.

(** The heap model computes what the model over values computes: for any
    received data, loaded into an empty heap, the heap is well formed, the
    three kinds of accessors give the same exception or the same content,
    and the hash read through the heap is the hash of the data. *)
Theorem heap_model_refines (data : list (string * pyval)) :
  let hdata := fst (load_received data []) in
  let h := snd (load_received data []) in
  closed_heap h /\ closed_data h hdata /\
  (forall r key, Provides.received (Provides._unit r) = data ->
     same_result tree_of_dict depth_dict
       (Provides.tags_of r key) (Alias.tags_of key hdata h) /\
     same_result tree_of_list depth_list
       (Provides.patterns_of r key) (Alias.patterns_of key hdata h) /\
     Alias.flag_of key hdata h = Provides.flag_of r key) /\
  (forall n, depth (PDict data) <= n ->
     Alias.hash n h hdata = Some (Provides.content_hash data)).
Proof.
  intros hdata h.
  destruct (load_received_represents data [] (Forall_nil _)) as (Hc & _ & Hr & Hd).
  fold h in Hc, Hr, Hd. fold hdata in Hr, Hd.
  split; [exact Hc |]. split; [exact Hd |]. split.
  - intros r key Hdata. split; [| split].
    + now apply (tags_of_refines h data).
    + now apply (patterns_of_refines h data).
    + now apply (flag_of_refines h data).
  - intros n Hn. now apply hash_refines.
Qed.

End AliasRefines.

(** * The scenarios of the specification, run on the model *)

Module ScenarioFacts.
Import Py Provides Scenario.

(** The hash of P1's data, as Python computes it. *)
Example p1_hash :
  hash (init p1) = "f1d5f5bca9780770dadb53d3d9a4b82706f7d8547178d278c360c085561e99f1".
Proof. vm_compute. reflexivity. Qed.

(** P1 is new; once marked completed it is neither changed nor
    unpublished. *)
Example p1_new_then_acknowledged :
  changed expand_name (init p1) fresh = true /\
  on_ok (mark_completed expand_name (init p1) fresh)
        (fun st => (changed expand_name (init p1) st, is_completed (init p1) st))
    = Some (false, Ok true).
Proof. split; vm_compute; reflexivity. Qed.

(** Changed data is a changed request, and completing it publishes the new
    hash, which is not the old one. *)
Example p1_update :
  on_ok (mark_completed expand_name (init p1) fresh)
        (fun st => (changed expand_name (init p1_updated) st,
                    on_ok (mark_completed expand_name (init p1_updated) st)
                          (fun st' => dict_find (PStr "i-1") (published st' 0))))
    = Some (true, Some (Some (PStr (hash (init p1_updated))))) /\
  hash (init p1_updated) <> hash (init p1).
Proof. split; vm_compute; [reflexivity | discriminate]. Qed.

(** After P1 departs and comes back with the same data, it is new again. *)
Example p1_departs_and_returns :
  changed expand_name (init p1) departing = false /\
  kv (cleanup expand_name departing) = ∅ /\
  changed expand_name (init p1) (cleanup expand_name departing) = true.
Proof. repeat split; vm_compute; reflexivity. Qed.

(** A restart lost the published entry; [check_requests] restores it and
    leaves the [requested] flag clear. *)
Example restart_is_reconciled :
  on_ok (check_requests expand_name [p1] restarted)
        (fun st => (is_completed (init p1) st, elements (flags st), log st))
    = Some (Ok true, [], ["Marking request as completed for app/0 from i-1"]).
Proof. vm_compute. reflexivity. Qed.

(** The heap accessors give what the accessors over values give. *)
Example heap_accessor_agrees :
  instance_tags (init tagged) = Ok [(PStr "Name", PStr "web"); (PStr "Team", PNone)] /\
  Alias.result_content 2 (Alias.instance_tags (fst tagged_heap) (snd tagged_heap)) =
    Ok (Alias.TDict [(Alias.TStr "Name", Alias.TStr "web"); (Alias.TStr "Team", Alias.TNone)]) /\
  Alias.hash 2 (snd tagged_heap) (fst tagged_heap) = Some (hash (init tagged)).
Proof. repeat split; vm_compute; reflexivity. Qed.

(** Without the copy the caller would hold the received object itself:
    emptying that object (address 0) changes what the data read and what
    they hash to. *)
Example sharing_would_corrupt :
  let h' := Alias.mutate 0 (Alias.HDict []) (snd tagged_heap) in
  Alias.received_content 2 h' (fst tagged_heap)
    <> Alias.received_content 2 (snd tagged_heap) (fst tagged_heap) /\
  Alias.hash 2 h' (fst tagged_heap) <> Alias.hash 2 (snd tagged_heap) (fst tagged_heap).
Proof. split; vm_compute; discriminate. Qed.

End ScenarioFacts.

(** * The theorems at concrete participants *)

Module Witnesses.
Import Py Provides Scenario.

(** P1 is new in a fresh state; P2, who sent nothing, is not. *)
Lemma changed_iff_witness :
  changed expand_name (init p1) fresh = true /\
  changed expand_name (init p2) fresh = false.
Proof.
  split.
  - apply (proj1 (ProvidesFacts.changed_iff expand_name p1 fresh)).
    split; [exists (PStr "i-1"); split; reflexivity |].
    split; [exists (PBool true); split; reflexivity |].
    left. reflexivity.
  - apply (proj2 (ProvidesFacts.changed_iff expand_name p2 fresh)).
    left. intros (v & H & _). discriminate H.
Defined.

Lemma mark_completed_idempotent_witness :
  instance_id (init p1) = PStr "i-1" /\
  exists st1,
    mark_completed expand_name (init p1) fresh = Ok st1 /\
    kv st1 !! _hash_key expand_name (init p1) = Some (PStr (hash (init p1))) /\
    dict_find (instance_id (init p1)) (published st1 (relation (_unit (init p1))))
      = Some (PStr (hash (init p1))) /\
    changed expand_name (init p1) st1 = false /\
    is_completed (init p1) st1 = Ok true /\
    mark_completed expand_name (init p1) st1 = Ok st1.
Proof.
  split; [reflexivity |].
  exact (ProvidesFacts.mark_completed_idempotent expand_name (init p1) fresh "i-1" eq_refl).
Defined.

Lemma check_requests_flags_witness :
  expand_name "requested" <> expand_name "changed" /\
  (forall u, In u [p2; p1] -> plain_id (instance_id (init u)) = true) /\
  exists st',
    check_requests expand_name [p2; p1] fresh = Ok st' /\
    (expand_name "requested" ∈ flags st' <->
       exists u, In u [p2; p1] /\ changed expand_name (init u) fresh = true) /\
    expand_name "changed" ∉ flags st'.
Proof.
  assert (H1 : expand_name "requested" <> expand_name "changed")
    by (vm_compute; discriminate).
  assert (H2 : forall u, In u [p2; p1] -> plain_id (instance_id (init u)) = true).
  { intros u [<- | [<- | []]]; reflexivity. }
  split; [exact H1 |]. split; [exact H2 |].
  exact (proj1 (ProvidesFacts.check_requests_flags expand_name [p2; p1] fresh H1) H2).
Defined.

Lemma check_requests_reconciles_witness :
  is_completed (init p1) restarted = Ok false /\
  truthy (completed_for_instance expand_name (init p1) restarted) = true /\
  exists st',
    check_requests expand_name [p2; p1] restarted = Ok st' /\
    is_completed (init p1) st' = Ok true /\
    kv st' = kv restarted.
Proof.
  assert (Hc : truthy (completed_for_instance expand_name (init p1) restarted) = true)
    by (vm_compute; reflexivity).
  split; [vm_compute; reflexivity |]. split; [exact Hc |].
  apply (ProvidesFacts.check_requests_reconciles expand_name [p2; p1] restarted p1).
  - right. left. reflexivity.
  - intros u [<- | [<- | []]]; reflexivity.
  - exact Hc.
Defined.

Lemma cleanup_forgets_witness :
  changed expand_name (init p1) departing = false /\
  kv (cleanup expand_name departing) !! _hash_key expand_name (init p1) = None /\
  changed expand_name (init p1) (cleanup expand_name departing) = true.
Proof.
  split; [vm_compute; reflexivity |].
  destruct (ProvidesFacts.cleanup_forgets expand_name departing p1) as (Hk & Hch & _).
  - left. reflexivity.
  - split; [exact Hk |]. apply Hch; reflexivity.
Defined.

Lemma published_map_frame_witness :
  to_publish (cleanup expand_name departing) = to_publish departing /\
  is_completed (init p1) (cleanup expand_name departing) = Ok true /\
  kv (clear expand_name (init p3) departing) !! _hash_key expand_name (init p1)
    = kv departing !! _hash_key expand_name (init p1) /\
  exists st',
    mark_completed expand_name (init p3) departing = Ok st' /\
    dict_find (PStr "i-1") (published st' 0) = Some (PStr (content_hash p1_data)).
Proof.
  destruct (ProvidesFacts.published_map_frame expand_name) as (Hclr & Hcl & Hic & Hmk).
  split; [apply Hcl |]. split; [| split].
  - rewrite Hic. vm_compute. reflexivity.
  - apply (Hclr (init p3) departing). vm_compute. discriminate.
  - destruct (Hmk (init p3) departing "i-2" eq_refl) as (st' & Hrun & _ & Hk).
    exists st'. split; [exact Hrun |].
    change 0%nat with (relation (_unit (init p3))).
    rewrite (Hk (PStr "i-1") eq_refl). vm_compute. reflexivity.
Defined.

Lemma accessors_default_when_absent_witness :
  instance_tags (init p2) = Ok [] /\
  object_storage_access_patterns (init p2) = Ok [] /\
  requested_dns_management (init p2) = false /\
  raises (is_completed (init p2) fresh) = false /\
  raises (mark_completed expand_name (init p1) fresh) = false /\
  raises (check_requests expand_name [p2; p1] fresh) = false.
Proof.
  destruct (ProvidesFacts.accessors_default_when_absent expand_name p2)
    as (Ht & Hp & Hf & Hi & _ & Hc).
  split; [exact (proj1 (Forall_inv Ht) eq_refl) |].
  split; [exact (proj1 (Forall_inv Hp) eq_refl) |].
  split; [exact (Forall_inv (Forall_inv_tail (Forall_inv_tail (Forall_inv_tail
                   (Forall_inv_tail (Forall_inv_tail (Forall_inv_tail Hf)))))) eq_refl) |].
  split; [exact (Hi fresh eq_refl) |].
  split.
  - destruct (ProvidesFacts.accessors_default_when_absent expand_name p1)
      as (_ & _ & _ & _ & Hm & _).
    exact (Hm fresh "i-1" eq_refl).
  - apply Hc. intros u [<- | [<- | []]]; reflexivity.
Defined.

(** The claim of C7 as the specification words it fails on malformed
    fields: a tag field holding a number, a pattern field holding a number
    and an instance id holding a list each raise [TypeError]. *)
Lemma accessors_raise_on_malformed :
  instance_tags (init bad_tags) = Raise TypeError /\
  object_storage_access_patterns (init bad_patterns) = Raise TypeError /\
  check_requests expand_name [bad_id] fresh = Raise TypeError.
Proof. repeat split; vm_compute; reflexivity. Qed.

Lemma hash_order_independent_witness :
  NoDup (map fst p1_data) /\ Permutation p1_data p1_data_reordered /\
  content_hash p1_data = content_hash p1_data_reordered.
Proof.
  assert (H1 : NoDup (map fst p1_data)).
  { simpl. repeat (constructor; [simpl; intuition discriminate |]). constructor. }
  assert (H2 : Permutation p1_data p1_data_reordered) by exact (Permutation_rev p1_data).
  split; [exact H1 |]. split; [exact H2 |].
  exact (proj1 HashFacts.hash_order_independent p1_data p1_data_reordered H1 H2).
Defined.

Lemma accessors_return_copies_witness :
  Alias.closed_heap tagged_objects /\ Alias.closed_data tagged_objects tagged_received /\
  exists l,
    Alias.HRef 3 = Alias.HRef l /\
    forall o,
      (forall l', (l' < length tagged_objects)%nat ->
         Alias.mutate l o tagged_copied !! l' = tagged_objects !! l') /\
      (forall n, Alias.received_content n (Alias.mutate l o tagged_copied) tagged_received
                 = Alias.received_content n tagged_objects tagged_received) /\
      (forall n, Alias.hash n (Alias.mutate l o tagged_copied) tagged_received
                 = Alias.hash n tagged_objects tagged_received) /\
      (forall acc' n, In acc' Alias.copying_accessors ->
         Alias.result_content n (acc' tagged_received (Alias.mutate l o tagged_copied))
         = Alias.result_content n (acc' tagged_received tagged_objects)) /\
      (forall key, Alias.flag_of key tagged_received (Alias.mutate l o tagged_copied)
                   = Alias.flag_of key tagged_received tagged_objects).
Proof.
  assert (Hc : Alias.closed_heap tagged_objects).
  { unfold Alias.closed_heap, Alias.closed_obj, Alias.closed_entry. simpl.
    repeat constructor. }
  assert (Hd : Alias.closed_data tagged_objects tagged_received).
  { unfold Alias.closed_data. simpl. repeat constructor. }
  split; [exact Hc |]. split; [exact Hd |].
  apply (AliasFacts.accessors_return_copies Alias.instance_tags
           tagged_received tagged_objects).
  - left. reflexivity.
  - exact Hc.
  - exact Hd.
  - reflexivity.
Defined.

End Witnesses.
(** * Further properties of the layer *)

Module Coverage.
Import Py PyFacts Provides ProvidesFacts Usage.

Section Endpoint.
Variable expand_name : string -> string.

Local Abbreviation _hash_key := (Provides._hash_key expand_name).
Local Abbreviation changed := (Provides.changed expand_name).
Local Abbreviation mark_completed := (Provides.mark_completed expand_name).
Local Abbreviation clear := (Provides.clear expand_name).
Local Abbreviation completed_for_instance := (Provides.completed_for_instance expand_name).
Local Abbreviation check_loop := (Provides.check_loop expand_name).
Local Abbreviation check_request := (Provides.check_request expand_name).
Local Abbreviation check_requests := (Provides.check_requests expand_name).
Local Abbreviation cleanup := (Provides.cleanup expand_name).
Local Abbreviation requests := (Provides.requests expand_name).
Local Abbreviation mark_all := (Usage.mark_all expand_name).
Local Abbreviation handle_requests := (Usage.handle_requests expand_name).

Implicit Types (r : IntegrationRequest) (st : state) (u : RelatedUnit).

Lemma requests_frame (units : list RelatedUnit) st st' :
  kv st' = kv st -> requests units st' = requests units st.
Proof.
  intros H. unfold Provides.requests. apply filter_ext. intros r.
  now apply changed_frame.
Qed.

Lemma requests_nonempty (units : list RelatedUnit) st :
  requests units st <> [] <->
  existsb (fun r => changed r st) (all_requests units) = true.
Proof.
  unfold Provides.requests.
  induction (all_requests units) as [| r rs IH]; simpl.
  - split; [congruence | discriminate].
  - destruct (changed r st); simpl; [split; [reflexivity | discriminate] | exact IH].
Qed.

(** X1. The [requested] flag and the [requests] list agree: after a pass that
    returns, the flag is set exactly when [requests] is not empty, and the
    pass has not changed which requests the list holds. *)
Theorem requested_flag_iff_requests (all_joined_units : list RelatedUnit) st st' :
  expand_name "requested" <> expand_name "changed" ->
  check_requests all_joined_units st = Ok st' ->
  requests all_joined_units st' = requests all_joined_units st /\
  (expand_name "requested" ∈ flags st' <-> requests all_joined_units st' <> []).
Proof.
  intros Hne Hrun. unfold Provides.check_requests in Hrun.
  destruct (check_loop (all_requests all_joined_units) (false, st))
    as [[b st1] | e] eqn:E; cbn [bind fst snd] in Hrun; [| discriminate].
  injection Hrun as <-.
  apply (check_loop_post expand_name) in E as (-> & K & F). cbn [orb].
  assert (Hreq : requests all_joined_units
                   (clear_flag (expand_name "changed")
                      (toggle_flag (expand_name "requested")
                         (existsb (fun r => changed r st) (all_requests all_joined_units))
                         st1)) = requests all_joined_units st).
  { apply requests_frame. rewrite <- K. now destruct (existsb _ _). }
  split; [exact Hreq |]. rewrite Hreq, requests_nonempty.
  destruct (existsb _ _); simpl; rewrite F; split; try discriminate; try reflexivity.
  - intros _. apply elem_of_difference. split.
    + apply elem_of_union_l. now apply elem_of_singleton.
    + rewrite elem_of_singleton. exact Hne.
  - intros H. apply elem_of_difference in H as [H _].
    apply elem_of_difference in H as [_ H].
    exfalso. apply H. now apply elem_of_singleton.
Qed.

(** X2. A request whose [instance-id] and [requested] are truthy is either
    [changed] or [completed_for_instance], never neither; one that lacks
    either is neither. *)
Theorem changed_or_completed_for_instance u st :
  changed (init u) st =
    truthy (instance_id (init u)) && truthy (_requested (init u))
    && negb (truthy (completed_for_instance (init u) st)).
Proof.
  unfold Provides.changed, Provides.completed_for_instance.
  rewrite !truthy_and. cbn [truthy].
  destruct (truthy (instance_id (init u))); [| reflexivity].
  destruct (truthy (_requested (init u))); [| reflexivity].
  cbn [negb andb].
  destruct (py_eq_str (kv_get st (_hash_key (init u))) (hash (init u))) eqn:E.
  - apply py_eq_str_true in E. rewrite E. cbn [truthy].
    destruct (String.eqb (hash (init u)) "") eqn:E0; [| reflexivity].
    apply String.eqb_eq in E0. exfalso. exact (content_hash_nonempty (received u) E0).
  - rewrite andb_false_r. reflexivity.
Qed.

(** X3. Two joined units that report the same instance id with different
    data cannot both be acknowledged: in every state one of the two
    requests is [changed], so every pass that returns sets the [requested]
    flag. *)
Theorem conflicting_units_stay_pending (all_joined_units : list RelatedUnit) u1 u2 st st' :
  In u1 all_joined_units -> In u2 all_joined_units ->
  instance_id (init u1) = instance_id (init u2) ->
  hash (init u1) <> hash (init u2) ->
  truthy (instance_id (init u1)) = true ->
  truthy (_requested (init u1)) = true -> truthy (_requested (init u2)) = true ->
  expand_name "requested" <> expand_name "changed" ->
  check_requests all_joined_units st = Ok st' ->
  changed (init u1) st || changed (init u2) st = true /\
  expand_name "requested" ∈ flags st'.
Proof.
  intros In1 In2 Hid Hh Hi1 Hq1 Hq2 Hne Hrun.
  assert (Hor : changed (init u1) st || changed (init u2) st = true).
  { destruct (changed (init u1) st) eqn:H1; [reflexivity |]. simpl.
    apply changed_true. rewrite <- Hid. repeat split; try assumption.
    intros He. apply not_true_iff_false in H1. apply H1.
    apply changed_true. repeat split; try assumption.
    rewrite (hash_key_of_id expand_name (init u2) (init u1) Hid), He. congruence. }
  split; [exact Hor |].
  unfold Provides.check_requests in Hrun.
  destruct (check_loop (all_requests all_joined_units) (false, st))
    as [[b st1] | e] eqn:E; cbn [bind fst snd] in Hrun; [| discriminate].
  injection Hrun as <-.
  apply (check_loop_post expand_name) in E as (-> & _ & F). cbn [orb].
  assert (Hex : existsb (fun r => changed r st) (all_requests all_joined_units) = true).
  { apply existsb_exists. apply orb_true_iff in Hor as [H | H].
    - exists (init u1). split; [now apply in_map | exact H].
    - exists (init u2). split; [now apply in_map | exact H]. }
  rewrite Hex. simpl. rewrite F. apply elem_of_difference. split.
  - apply elem_of_union_l. now apply elem_of_singleton.
  - rewrite elem_of_singleton. exact Hne.
Qed.

(** *** One request's acknowledgement and the others *)

(** X4. [mark_completed] for one request leaves alone every request with
    another store key: its [changed] and [completed_for_instance] are as
    before. *)
Theorem mark_completed_isolated r r' st st1 :
  mark_completed r st = Ok st1 ->
  _hash_key r' <> _hash_key r ->
  changed r' st1 = changed r' st /\
  completed_for_instance r' st1 = completed_for_instance r' st.
Proof.
  intros Hm Hk. unfold Provides.mark_completed in Hm.
  destruct (dict_set _ _ _) as [c |]; cbn [bind] in Hm; [| discriminate].
  injection Hm as <-.
  assert (Hget : kv_get (publish (relation (_unit r)) c
                           (kv_set (_hash_key r) (PStr (hash r)) st)) (_hash_key r')
                 = kv_get st (_hash_key r')).
  { unfold kv_get. simpl. rewrite lookup_insert_ne by congruence. reflexivity. }
  unfold Provides.changed, Provides.completed_for_instance. now rewrite Hget.
Qed.

(** X5. An acknowledgement is for one content: [mark_completed] for a
    request whose instance id is a string returns, and afterwards a
    request of the same relation with the same instance id is
    [is_completed] exactly when its hash is the same, and [changed]
    exactly when it is requested and its hash is another one. *)
Theorem acknowledged_by_content r st (id : string) :
  instance_id r = PStr id ->
  exists st1,
    mark_completed r st = Ok st1 /\
    forall r',
      instance_id r' = instance_id r ->
      relation (_unit r') = relation (_unit r) ->
      is_completed r' st1 = Ok (String.eqb (hash r) (hash r')) /\
      changed r' st1 =
        truthy (instance_id r') && truthy (_requested r')
        && negb (String.eqb (hash r) (hash r')).
Proof.
  intros Hstr.
  assert (Hh : hashable (instance_id r) = true) by now rewrite Hstr.
  rewrite (mark_completed_result expand_name _ _ Hh).
  eexists. split; [reflexivity |]. intros r' Hid Hrel.
  split.
  - unfold is_completed, dict_get, published. rewrite Hid, Hrel, Hh. simpl.
    rewrite lookup_insert_eq. simpl.
    rewrite dict_find_store by (now apply key_eqb_refl). reflexivity.
  - unfold Provides.changed. rewrite truthy_and.
    destruct (truthy (instance_id r')); [| reflexivity].
    destruct (truthy (_requested r')); [| reflexivity].
    cbn [negb andb]. f_equal.
    unfold kv_get. simpl.
    rewrite (hash_key_of_id expand_name r r' Hid), lookup_insert_eq. reflexivity.
Qed.

(** X6. Departure after an acknowledgement, for an instance id that is a
    string: [mark_completed] returns, and once [clear] has run the request
    counts as changed again (when it is requested) and is no longer
    [completed_for_instance], while the published map still carries its
    hash, so [is_completed] stays true. *)
Theorem clear_after_mark_completed r st (id : string) :
  instance_id r = PStr id ->
  exists st1,
    mark_completed r st = Ok st1 /\
    changed r (clear r st1) = truthy (instance_id r) && truthy (_requested r) /\
    truthy (completed_for_instance r (clear r st1)) = false /\
    is_completed r (clear r st1) = Ok true.
Proof.
  intros Hstr.
  assert (Hh : hashable (instance_id r) = true) by now rewrite Hstr.
  rewrite (mark_completed_result expand_name _ _ Hh).
  eexists. split; [reflexivity |].
  assert (Hget : forall s, kv_get (clear r s) (_hash_key r) = PNone).
  { intros s. unfold kv_get. simpl. now rewrite lookup_delete_eq. }
  split; [| split].
  - unfold Provides.changed. rewrite truthy_and, Hget.
    destruct (truthy (instance_id r)); [| reflexivity].
    destruct (truthy (_requested r)); reflexivity.
  - unfold Provides.completed_for_instance. rewrite !truthy_and, Hget. simpl.
    now rewrite !andb_false_r.
  - apply is_completed_true. split; [exact Hh |].
    unfold published. simpl. rewrite lookup_insert_eq. simpl.
    apply dict_find_store. now apply key_eqb_refl.
Qed.

(** *** Handling every request *)

Lemma mark_completed_store r st st1 :
  mark_completed r st = Ok st1 ->
  kv st1 = <[_hash_key r := PStr (hash r)]> (kv st).
Proof.
  unfold Provides.mark_completed.
  destruct (dict_set _ _ _) as [c |]; cbn [bind]; [| discriminate].
  now intros [= <-].
Qed.

(** After the loop, each marked request, and each request that was
    acknowledged before, is acknowledged, provided requests that share a
    key share their hash. *)
Lemma mark_all_acknowledges (rs : list IntegrationRequest) : forall st,
  Forall (fun r => hashable (instance_id r) = true) rs ->
  exists st',
    mark_all rs st = Ok st' /\
    forall r,
      (forall r', In r' rs -> _hash_key r' = _hash_key r -> hash r' = hash r) ->
      In r rs \/ kv st !! _hash_key r = Some (PStr (hash r)) ->
      kv st' !! _hash_key r = Some (PStr (hash r)).
Proof.
  induction rs as [| r0 rs IH]; intros st Hall; cbn [Usage.mark_all].
  - exists st. split; [reflexivity |]. intros r _ [[] | H]. exact H.
  - apply Forall_cons_iff in Hall as [Hh Hall].
    rewrite (mark_completed_result expand_name _ _ Hh). cbn [bind].
    set (st1 := publish _ _ _).
    destruct (IH st1 Hall) as (st' & Hrun & Hpost).
    exists st'. split; [exact Hrun |].
    intros r Hcons Hor. apply Hpost.
    + intros r' Hin. apply Hcons. now right.
    + destruct Hor as [[-> | Hin] | Hsaved].
      * right. unfold st1. simpl. apply lookup_insert_eq.
      * now left.
      * right. unfold st1. simpl.
        destruct (String.eqb (_hash_key r0) (_hash_key r)) eqn:E.
        -- apply String.eqb_eq in E. rewrite E, lookup_insert_eq.
           rewrite (Hcons r0 (or_introl eq_refl) E). reflexivity.
        -- apply String.eqb_neq in E. now rewrite lookup_insert_ne.
Qed.

(** X7. When the handler has marked every request of [requests] completed,
    none is left: [requests] is empty and the next pass clears the
    [requested] flag.  Instance ids are absent or strings, and units that
    share a store key sent the same data (same hash). *)
Theorem handle_requests_settles (all_joined_units : list RelatedUnit) st :
  (forall u, In u all_joined_units -> plain_id (instance_id (init u)) = true) ->
  (forall u1 u2, In u1 all_joined_units -> In u2 all_joined_units ->
     _hash_key (init u1) = _hash_key (init u2) -> hash (init u1) = hash (init u2)) ->
  exists st',
    handle_requests all_joined_units st = Ok st' /\
    requests all_joined_units st' = [] /\
    exists st'',
      check_requests all_joined_units st' = Ok st'' /\
      expand_name "requested" ∉ flags st''.
Proof.
  intros Hids Hcons. unfold Usage.handle_requests.
  assert (Hsub : forall r, In r (requests all_joined_units st) ->
                   exists u, In u all_joined_units /\ r = init u /\ changed r st = true).
  { intros r Hr. unfold Provides.requests in Hr. apply filter_In in Hr as [Hr Hc].
    unfold all_requests in Hr. apply in_map_iff in Hr as (u & <- & Hu). eauto. }
  destruct (mark_all_acknowledges (requests all_joined_units st) st) as (st' & Hrun & Hpost).
  { apply Forall_forall. intros r Hr. destruct (Hsub r Hr) as (u & Hu & -> & _).
    now apply plain_id_hashable, Hids. }
  exists st'. split; [exact Hrun |].
  assert (Hnone : forall u, In u all_joined_units -> changed (init u) st' = false).
  { intros u Hu. destruct (changed (init u) st') eqn:Hch; [| reflexivity].
    apply changed_true in Hch as (Hi & Hq & Hne). exfalso. apply Hne.
    apply Hpost.
    - intros r' Hr' Hk. destruct (Hsub r' Hr') as (u' & Hu' & -> & _). now apply Hcons.
    - destruct (changed (init u) st) eqn:Hch0.
      + left. unfold Provides.requests. apply filter_In. split; [| exact Hch0].
        unfold all_requests. now apply in_map.
      + right.
        destruct (py_eq_str (kv_get st (_hash_key (init u))) (hash (init u))) eqn:E.
        * now apply saved_hash_eq in E.
        * exfalso. apply not_true_iff_false in Hch0. apply Hch0.
          apply changed_true. repeat split; try assumption.
          intros He. apply (saved_hash_eq st) in He. congruence. }
  assert (Hex : existsb (fun r => changed r st') (all_requests all_joined_units) = false).
  { apply not_true_iff_false. rewrite existsb_exists. intros (r & Hr & Hc).
    unfold all_requests in Hr. apply in_map_iff in Hr as (u & <- & Hu).
    rewrite (Hnone u Hu) in Hc. discriminate. }
  split.
  - destruct (requests all_joined_units st') eqn:E; [reflexivity |].
    exfalso. assert (Hn : requests all_joined_units st' <> []) by (rewrite E; discriminate).
    apply requests_nonempty in Hn. congruence.
  - unfold Provides.check_requests.
    destruct (check_loop_ok expand_name (all_requests all_joined_units) false st')
      as (st1 & E & _ & F).
    { unfold all_requests. apply Forall_forall. intros r Hr.
      apply in_map_iff in Hr as (u & <- & Hu). now apply plain_id_hashable, Hids. }
    rewrite E, Hex. cbn [bind fst snd orb]. eexists. split; [reflexivity |].
    simpl. rewrite F. intros H. apply elem_of_difference in H as [H _].
    apply elem_of_difference in H as [_ H]. apply H. now apply elem_of_singleton.
Qed.

(** *** What a pass does to the state *)

(** A pass over requests of which none needs publishing publishes
    nothing. *)
Lemma check_loop_quiet (rs : list IntegrationRequest) : forall (b : bool) st,
  Forall (fun r => hashable (instance_id r) = true /\
                   (truthy (completed_for_instance r st) = true ->
                    is_completed r st = Ok true)) rs ->
  exists b' st', check_loop rs (b, st) = Ok (b', st') /\
                 to_publish st' = to_publish st /\ kv st' = kv st.
Proof.
  induction rs as [| r rs IH]; intros b st Hall; cbn [Provides.check_loop].
  - now exists b, st.
  - apply Forall_cons_iff in Hall as [[Hh Hdone] Hall].
    assert (Hstep : exists b1 st1, check_request (b, st) r = Ok (b1, st1) /\
                      to_publish st1 = to_publish st /\ kv st1 = kv st).
    { unfold Provides.check_request. destruct (changed r st).
      - eexists _, _. split; [reflexivity | now split].
      - destruct (truthy (completed_for_instance r st)) eqn:Hc.
        + rewrite (Hdone eq_refl). cbn [bind negb andb]. now exists b, st.
        + unfold is_completed, dict_get. rewrite Hh. cbn [bind].
          rewrite andb_false_r. now exists b, st. }
    destruct Hstep as (b1 & st1 & E & P & K). rewrite E. cbn [bind].
    destruct (IH b1 st1) as (b' & st' & E' & P' & K').
    { eapply Forall_impl; [| exact Hall]. intros r' [Hh' Hd']. split; [exact Hh' |].
      rewrite (completed_for_instance_frame expand_name _ _ _ K).
      rewrite (is_completed_frame _ _ _ P). exact Hd'. }
    exists b', st'. split; [exact E' |]. split; congruence.
Qed.

(** X8. [check_requests] is idempotent on the store, the published maps, the
    flags and the departed units: a second pass right after the first
    changes none of them (it only logs again).  Instance ids are absent or
    strings. *)
Theorem check_requests_idempotent (all_joined_units : list RelatedUnit) st :
  (forall u, In u all_joined_units -> plain_id (instance_id (init u)) = true) ->
  exists st1 st2,
    check_requests all_joined_units st = Ok st1 /\
    check_requests all_joined_units st1 = Ok st2 /\
    kv st2 = kv st1 /\ to_publish st2 = to_publish st1 /\
    flags st2 = flags st1 /\ all_departed_units st2 = all_departed_units st1.
Proof.
  intros Hids. set (rs := all_requests all_joined_units).
  assert (Hplain : Forall (fun r => plain_id (instance_id r) = true) rs).
  { unfold rs, all_requests. apply Forall_forall. intros r Hr.
    apply in_map_iff in Hr as (u & <- & Hu). now apply Hids. }
  assert (Hhash : Forall (fun r => hashable (instance_id r) = true) rs).
  { eapply Forall_impl; [| exact Hplain]. intros r. apply plain_id_hashable. }
  destruct (check_loop_ok expand_name rs false st Hhash) as (sa & Ea & Ka & Fa).
  remember (false || existsb (fun r => changed r st) rs) as b eqn:Hb.
  assert (Hquiet : Forall (fun r => hashable (instance_id r) = true /\
                             (truthy (completed_for_instance r sa) = true ->
                              is_completed r sa = Ok true)) rs).
  { apply Forall_forall. intros r Hr. rewrite Forall_forall in Hplain, Hhash.
    split; [now apply Hhash |]. intros Hc.
    rewrite (completed_for_instance_frame expand_name _ _ _ Ka) in Hc.
    destruct (check_loop_completes expand_name r rs false st (Hplain r Hr))
      as (b' & st' & E' & Hd & _); [now apply Forall_forall | exact Hc | now left |].
    rewrite Ea in E'. injection E' as _ <-. exact Hd. }
  remember (clear_flag (expand_name "changed")
              (toggle_flag (expand_name "requested") b sa)) as s1 eqn:Hs1.
  assert (Hrun1 : check_requests all_joined_units st = Ok s1).
  { unfold Provides.check_requests. fold rs. rewrite Ea, Hs1. reflexivity. }
  assert (Hk1 : kv s1 = kv sa) by (rewrite Hs1; now destruct b).
  assert (Hp1 : to_publish s1 = to_publish sa) by (rewrite Hs1; now destruct b).
  assert (Hd1 : all_departed_units s1 = all_departed_units sa)
    by (rewrite Hs1; now destruct b).
  destruct (check_loop_quiet rs false s1) as (b2 & sb & Eb & Pb & Kb).
  { eapply Forall_impl; [| exact Hquiet]. intros r [Hh Hd]. split; [exact Hh |].
    rewrite (completed_for_instance_frame expand_name _ _ _ Hk1).
    rewrite (is_completed_frame _ _ _ Hp1). exact Hd. }
  pose proof (check_loop_post expand_name rs _ _ _ _ Eb) as (Hb2 & _ & Fb).
  assert (Hdep : forall (l : list IntegrationRequest) (c c' : bool) s s',
            check_loop l (c, s) = Ok (c', s') ->
            all_departed_units s' = all_departed_units s).
  { induction l as [| r l IHl]; intros c c' s s'; cbn [Provides.check_loop].
    - now intros [= _ <-].
    - destruct (check_request (c, s) r) as [[c1 s1'] | e] eqn:E1; cbn [bind]; [| discriminate].
      intros E2. rewrite (IHl _ _ _ _ E2).
      unfold Provides.check_request in E1. destruct (changed r s).
      + now injection E1 as _ <-.
      + destruct (is_completed r s) as [done | e]; cbn [bind] in E1; [| discriminate].
        destruct (negb done && truthy (completed_for_instance r s)).
        * destruct (mark_completed r s) as [sm | e] eqn:Hm; cbn [bind] in E1; [| discriminate].
          injection E1 as _ <-. unfold Provides.mark_completed in Hm.
          destruct (dict_set _ _ _); cbn [bind] in Hm; [| discriminate].
          now injection Hm as <-.
        * now injection E1 as _ <-. }
  assert (Hbb : b2 = b).
  { rewrite Hb2, Hb. f_equal. apply existsb_same. intros r.
    apply (changed_frame expand_name). rewrite Hk1. exact Ka. }
  clear Hb2. subst b2.
  exists s1, (clear_flag (expand_name "changed")
                (toggle_flag (expand_name "requested") b sb)).
  split; [exact Hrun1 |]. split.
  { unfold Provides.check_requests. fold rs. rewrite Eb. reflexivity. }
  split; [destruct b; exact Kb |].
  split; [destruct b; exact Pb |].
  split.
  - assert (Hf1 : flags s1 = flags (toggle_flag (expand_name "requested") b sa)
                              ∖ {[expand_name "changed"]}) by now rewrite Hs1.
    clear Hs1 Hb. destruct b; simpl in *; rewrite Fb, Hf1;
      apply set_eq; intros x;
      repeat first [rewrite elem_of_difference | rewrite elem_of_union
                   | rewrite elem_of_singleton]; tauto.
  - rewrite <- (Hdep rs false b s1 sb Eb). now destruct b.
Qed.

(** A turn of the loop never drops a published entry, and what it adds
    is the hash the store holds for the request of that turn. *)
Lemma check_request_published r (b b1 : bool) st st1 :
  check_request (b, st) r = Ok (b1, st1) ->
  forall (rel : nat) (k : pyval),
    (forall v, dict_find k (published st rel) = Some v ->
               exists v', dict_find k (published st1 rel) = Some v') /\
    (forall v, dict_find k (published st1 rel) = Some v ->
               dict_find k (published st rel) = Some v \/
               (relation (_unit r) = rel /\ key_eqb k (instance_id r) = true /\
                v = PStr (hash r) /\ kv st !! _hash_key r = Some v)).
Proof.
  unfold Provides.check_request.
  destruct (changed r st).
  { intros [= _ <-] rel k. split; eauto. }
  destruct (is_completed r st) as [done | e]; cbn [bind]; [| discriminate].
  destruct (negb done && truthy (completed_for_instance r st)) eqn:E.
  2:{ intros [= _ <-] rel k. split; eauto. }
  destruct (mark_completed r st) as [sm | e] eqn:Hm; cbn [bind]; [| discriminate].
  intros [= _ <-] rel k.
  apply andb_true_iff in E as [_ E].
  apply completed_for_instance_true in E as (_ & _ & He & _).
  assert (Hh : hashable (instance_id r) = true).
  { unfold Provides.mark_completed, dict_set in Hm.
    destruct (hashable (instance_id r)); [reflexivity | discriminate]. }
  rewrite (mark_completed_result expand_name _ _ Hh) in Hm. injection Hm as <-.
  unfold published. simpl.
  destruct (decide (relation (_unit r) = rel)) as [<- | Hrel].
  - rewrite lookup_insert_eq. simpl. fold (published st (relation (_unit r))).
    destruct (key_eqb k (instance_id r)) eqn:K.
    + rewrite (dict_find_store _ _ _ _ K). split; [eauto |].
      intros v [= <-]. right. auto.
    + rewrite (dict_find_store_other _ _ _ _ K). split; eauto.
  - rewrite lookup_insert_ne by exact Hrel. split; eauto.
Qed.

(** X9. What a pass may do to the state, when the instance ids of the joined
    units are absent or strings: it returns, it leaves the persistent
    store as it was and drops no published entry, and every entry it
    publishes is the hash the store already holds for a joined unit of
    that relation, under that unit's instance id. *)
Theorem check_requests_publishes_only_persisted
  (all_joined_units : list RelatedUnit) st :
  (forall u, In u all_joined_units -> plain_id (instance_id (init u)) = true) ->
  exists st',
    check_requests all_joined_units st = Ok st' /\
    kv st' = kv st /\
    forall (rel : nat) (k : pyval),
      (forall v, dict_find k (published st rel) = Some v ->
                 exists v', dict_find k (published st' rel) = Some v') /\
      (forall v, dict_find k (published st' rel) = Some v ->
                 dict_find k (published st rel) = Some v \/
                 exists u, In u all_joined_units /\ relation u = rel /\
                           key_eqb k (instance_id (init u)) = true /\
                           v = PStr (hash (init u)) /\
                           kv st !! _hash_key (init u) = Some v).
Proof.
  intros Hids. unfold Provides.check_requests.
  destruct (check_loop_ok expand_name (all_requests all_joined_units) false st)
    as (st1 & E & _).
  { unfold all_requests. apply Forall_forall. intros r Hr.
    apply in_map_iff in Hr as (u & <- & Hu). now apply plain_id_hashable, Hids. }
  remember (false || existsb (fun r => changed r st) (all_requests all_joined_units))
    as b eqn:Hb. clear Hb.
  rewrite E. cbn [bind fst snd]. eexists. split; [reflexivity |].
  pose proof (check_loop_post expand_name _ _ _ _ _ E) as (_ & K & _).
  split; [rewrite <- K; now destruct b |].
  assert (Hpub : forall rel, published (clear_flag (expand_name "changed")
                    (toggle_flag (expand_name "requested") b st1)) rel = published st1 rel)
    by (intros rel; now destruct b).
  intros rel k. rewrite Hpub. clear Hpub K.
  assert (Hgen : forall (rs : list IntegrationRequest) (c c' : bool) s s',
    check_loop rs (c, s) = Ok (c', s') ->
    (forall v, dict_find k (published s rel) = Some v ->
               exists v', dict_find k (published s' rel) = Some v') /\
    (forall v, dict_find k (published s' rel) = Some v ->
               dict_find k (published s rel) = Some v \/
               exists r, In r rs /\ relation (_unit r) = rel /\
                         key_eqb k (instance_id r) = true /\
                         v = PStr (hash r) /\ kv s !! _hash_key r = Some v)).
  { induction rs as [| r rs IH]; intros c c' s s'; cbn [Provides.check_loop].
    - intros [= _ <-]. split; eauto.
    - destruct (check_request (c, s) r) as [[c1 s1] | e] eqn:E1; cbn [bind]; [| discriminate].
      intros E2.
      pose proof (check_request_post expand_name _ _ _ _ _ E1) as (_ & K1 & _).
      destruct (check_request_published _ _ _ _ _ E1 rel k) as [Hkeep1 Hnew1].
      destruct (IH _ _ _ _ E2) as [Hkeep2 Hnew2]. split.
      + intros v Hv. destruct (Hkeep1 v Hv) as [v1 Hv1]. eauto.
      + intros v Hv. destruct (Hnew2 v Hv) as [Hold | (r' & Hin & H1 & H2 & H3 & H4)].
        * destruct (Hnew1 v Hold) as [Hold0 | (H1 & H2 & H3 & H4)]; [now left |].
          right. exists r. split; [now left | auto].
        * right. exists r'. split; [now right |]. rewrite <- K1. auto. }
  destruct (Hgen _ _ _ _ _ E) as [Hkeep Hnew]. split; [exact Hkeep |].
  intros v Hv. destruct (Hnew v Hv) as [Hold | (r & Hin & H1 & H2 & H3 & H4)]; [now left |].
  right. unfold all_requests in Hin. apply in_map_iff in Hin as (u & <- & Hu).
  exists u. auto.
Qed.

(** *** Departure *)

(** X10. [cleanup] removes the store entries of the departed units and no
    other one, leaves the log alone, and running it again changes
    nothing. *)
Theorem cleanup_idempotent_and_local st :
  cleanup (cleanup st) = cleanup st /\
  log (cleanup st) = log st /\
  (expand_name "departed" ∉ flags (cleanup st)) /\
  forall key : string,
    (forall u, In u (all_departed_units st) -> _hash_key (init u) <> key) ->
    kv (cleanup st) !! key = kv st !! key.
Proof.
  split; [| split; [| split]].
  - unfold Provides.cleanup at 1. simpl. unfold Provides.cleanup.
    unfold clear_flag, clear_departed. simpl. f_equal.
    apply set_eq. intros x.
    repeat first [rewrite elem_of_difference | rewrite elem_of_singleton]. tauto.
  - unfold Provides.cleanup. simpl.
    generalize (all_departed_units st) at 1. intros l. revert st.
    induction l as [| a l IH]; intros st; simpl; [reflexivity |]. now rewrite IH.
  - unfold Provides.cleanup. simpl. intros H.
    apply elem_of_difference in H as [_ H]. apply H. now apply elem_of_singleton.
  - intros key H. unfold Provides.cleanup. simpl. now apply clear_all_other.
Qed.

End Endpoint.

(** *** Store keys *)

Lemma replace_from_none (old new s : string) :
  contains old s = false -> replace_from 0 old new s = s.
Proof.
  induction s as [| c s IH]; [reflexivity |].
  cbn [contains replace_from]. intros H.
  apply orb_false_iff in H as [H1 H2]. rewrite H1. f_equal. now apply IH.
Qed.

(** A name that does not mention the placeholder gets the prefix
    [endpoint.<endpoint name>.]. *)
Lemma expand_plain_name (endpoint_name flag : string) :
  contains placeholder flag = false ->
  Endpoint_expand_name endpoint_name flag = "endpoint." ++ endpoint_name ++ "." ++ flag.
Proof.
  intros H. unfold Endpoint_expand_name, replace. rewrite H.
  cbv [String.append]. cbn [replace_from starts_with placeholder Ascii.eqb Bool.eqb andb].
  cbn [String.length Nat.sub replace_from].
  rewrite (replace_from_none _ _ _ H).
  induction endpoint_name as [| c e IH]; [reflexivity |]. now f_equal.
Qed.

Lemma contains_request_id (id : string) :
  contains placeholder id = false -> contains placeholder ("request." ++ id) = false.
Proof.
  intros H. cbv [String.append].
  cbn [contains starts_with placeholder Ascii.eqb Bool.eqb andb orb]. exact H.
Qed.

(** X11. With the framework's [expand_name], a request whose instance id is a
    string that does not mention [{endpoint_name}] has the store key
    [endpoint.<endpoint name>.request.<instance id>], so two such requests
    share a store key only when they share the instance id; a request
    without instance id uses the key of the instance id ["None"]. *)
Theorem hash_key_of_string_ids (endpoint_name : string) r1 r2 (s1 s2 : string) :
  instance_id r1 = PStr s1 -> instance_id r2 = PStr s2 ->
  contains placeholder s1 = false -> contains placeholder s2 = false ->
  Provides._hash_key (Endpoint_expand_name endpoint_name) r1
    = "endpoint." ++ endpoint_name ++ ".request." ++ s1 /\
  (Provides._hash_key (Endpoint_expand_name endpoint_name) r1
     = Provides._hash_key (Endpoint_expand_name endpoint_name) r2 <-> s1 = s2) /\
  (forall r, instance_id r = PNone -> s1 = "None" ->
     Provides._hash_key (Endpoint_expand_name endpoint_name) r
       = Provides._hash_key (Endpoint_expand_name endpoint_name) r1).
Proof.
  intros H1 H2 C1 C2.
  assert (Hkey : forall r s, instance_id r = PStr s -> contains placeholder s = false ->
            Provides._hash_key (Endpoint_expand_name endpoint_name) r
              = "endpoint." ++ endpoint_name ++ ".request." ++ s).
  { intros r s Hr Hs. unfold Provides._hash_key. rewrite Hr. cbn [py_str].
    rewrite (expand_plain_name _ _ (contains_request_id _ Hs)). reflexivity. }
  split; [now apply Hkey |]. split.
  - rewrite (Hkey _ _ H1 C1), (Hkey _ _ H2 C2). split.
    + intros H. apply (inj (String.append "endpoint.")) in H.
      apply (inj (String.append endpoint_name)) in H.
      now apply (inj (String.append ".request.")) in H.
    + now intros ->.
  - intros r Hr ->. unfold Provides._hash_key. rewrite Hr, H1. reflexivity.
Qed.

(** Instance ids that mention the placeholder are outside that rule: these
    two differ and share a store key. *)
Example placeholder_ids_share_a_key :
  Endpoint_expand_name "aws" "request.{endpoint_name}aws"
  = Endpoint_expand_name "aws" "request.aws{endpoint_name}".
Proof. vm_compute. reflexivity. Qed.

End Coverage.

(** * Further properties of the collection and the accessors *)

Module CoverageData.
Import Py PyFacts Provides ProvidesFacts Usage.

(** ** [unit_instances] and [application_names] *)

Lemma unit_instances_fold (units : list RelatedUnit) :
  forall (acc : gmap string (list (string * pyval))) (name : string),
    (forall u, In u units -> unit_name u <> name) ->
    fold_left (fun acc u => <[unit_name u := instance_entry u]> acc) units acc !! name
    = acc !! name.
Proof.
  induction units as [| a units IH]; intros acc name H; simpl; [reflexivity |].
  rewrite IH by (intros u Hu; apply H; now right).
  apply lookup_insert_ne. apply H. now left.
Qed.

(** X12. [unit_instances] has no entry for a name no joined unit bears, and for
    a name borne by several units it holds the entry of the last one; the
    entry reads [None] where the unit sent no [instance-id] or [region]. *)
Theorem unit_instances_last_wins (all_joined_units : list RelatedUnit) :
  (forall name,
     (forall u, In u all_joined_units -> unit_name u <> name) ->
     unit_instances all_joined_units !! name = None) /\
  (forall l1 u l2,
     all_joined_units = (l1 ++ u :: l2)%list ->
     (forall u', In u' l2 -> unit_name u' <> unit_name u) ->
     unit_instances all_joined_units !! unit_name u
     = Some [("instance-id", default PNone (assoc "instance-id" (received u)));
             ("region", default PNone (assoc "region" (received u)))]).
Proof.
  unfold unit_instances. split.
  - intros name H.
    rewrite (unit_instances_fold all_joined_units ∅ name H). apply lookup_empty.
  - intros l1 u l2 -> H. rewrite fold_left_app. simpl.
    rewrite (unit_instances_fold l2 _ (unit_name u) H).
    apply lookup_insert_eq.
Qed.

(** X13. [application_names] holds exactly the application names of the joined
    units; neither their order nor repetitions matter. *)
Theorem application_names_spec (all_joined_units : list RelatedUnit) :
  (forall name, name ∈ application_names all_joined_units <->
                exists u, In u all_joined_units /\ application_name u = name) /\
  (forall units', Permutation all_joined_units units' ->
                  application_names units' = application_names all_joined_units) /\
  (forall u, In u all_joined_units ->
             application_names (u :: all_joined_units) = application_names all_joined_units).
Proof.
  assert (Hmem : forall units name, name ∈ application_names units <->
                   exists u, In u units /\ application_name u = name).
  { intros units name. unfold application_names.
    rewrite elem_of_list_to_set, list_elem_of_In, in_map_iff.
    split; intros (u & H1 & H2); exists u; auto. }
  split; [apply Hmem |]. split.
  - intros units' P. apply set_eq. intros name. rewrite !Hmem.
    split; intros (u & Hu & Hn); exists u; split; try exact Hn.
    + eapply Permutation_in; [apply Permutation_sym; exact P | exact Hu].
    + eapply Permutation_in; [exact P | exact Hu].
  - intros u Hu. apply set_eq. intros name. rewrite !Hmem.
    split.
    + intros (u' & [<- | Hu'] & Hn); eauto.
    + intros (u' & Hu' & Hn). exists u'. split; [now right | exact Hn].
Qed.

(** ** What the accessors give for a value that is there *)

Lemma dict_find_copy (d : list (string * pyval)) (k : string) :
  dict_find (PStr k) (map (fun kv => (PStr (fst kv), snd kv)) d) = assoc k d.
Proof.
  induction d as [| [k' x] d IH]; simpl; [reflexivity |].
  destruct (String.eqb k k'); [reflexivity | exact IH].
Qed.

(** X14. A tag accessor whose field holds a mapping returns a dictionary in
    which every tag name looks up the received value, and has no other
    string key. *)
Theorem tag_accessors_lookup r :
  Forall (fun ka =>
            forall d, assoc (fst ka) (received (_unit r)) = Some (PDict d) ->
              exists tags, snd ka r = Ok tags /\
                           forall name, dict_find (PStr name) tags = assoc name d)
         tag_accessors.
Proof.
  repeat constructor; intros d Hd; simpl in Hd |- *;
    (eexists; split; [apply (proj2 (tags_of_spec r _) d Hd) | apply dict_find_copy]).
Qed.

(** X15. A pattern accessor does not insist on a list: a field holding a
    non-empty string gives its characters one by one, and a field holding
    a non-empty mapping gives its keys. *)
Theorem pattern_accessors_iterate r :
  Forall (fun ka =>
            (forall s, assoc (fst ka) (received (_unit r)) = Some (PStr s) -> s <> "" ->
               snd ka r = Ok (chars s)) /\
            (forall d, assoc (fst ka) (received (_unit r)) = Some (PDict d) -> d <> [] ->
               snd ka r = Ok (map (fun kv => PStr (fst kv)) d)))
         pattern_accessors.
Proof.
  assert (H : forall key,
    (forall s, assoc key (received (_unit r)) = Some (PStr s) -> s <> "" ->
       patterns_of r key = Ok (chars s)) /\
    (forall d, assoc key (received (_unit r)) = Some (PDict d) -> d <> [] ->
       patterns_of r key = Ok (map (fun kv => PStr (fst kv)) d))).
  { intros key. unfold patterns_of, getitem, py_or. split.
    - intros s -> Hs. simpl. destruct s; [contradiction | reflexivity].
    - intros d -> Hd. simpl. destruct d; [contradiction | reflexivity]. }
  repeat constructor; apply H.
Qed.

(** ** [is_completed] *)

(** X16. [is_completed] raises exactly when the instance id cannot be a
    dictionary key; otherwise it is true exactly when the published map of
    the unit's relation holds the request's hash under the instance id, so
    it is false while nothing is published for the relation. *)
Theorem is_completed_spec r st :
  (is_completed r st = Raise TypeError <-> hashable (instance_id r) = false) /\
  (is_completed r st = Ok true <->
     hashable (instance_id r) = true /\
     dict_find (instance_id r) (published st (relation (_unit r))) = Some (PStr (hash r))) /\
  (published st (relation (_unit r)) = [] -> hashable (instance_id r) = true ->
   is_completed r st = Ok false).
Proof.
  split; [| split].
  - unfold is_completed, dict_get. destruct (hashable (instance_id r)); simpl.
    + split; discriminate.
    + split; reflexivity.
  - apply is_completed_true.
  - intros Hnone Hh. unfold is_completed, dict_get.
    rewrite Hh, Hnone. reflexivity.
Qed.

End CoverageData.

(** * Further properties of the request hash *)

Module CoverageHash.
Import Py Provides Json Usage.

(** ** Key order at any depth *)

(** Values that differ in key order only have the same serialisation. *)
Lemma dumps_reordered : forall v v', reordered v v' -> dumps v = dumps v'.
Proof.
  fix IH 3. intros v v' [v0 | l l' Hl | d d' d'' Hnd Hd Hp].
  - reflexivity.
  - simpl. do 3 f_equal.
    induction Hl as [| x y l l' Hxy Hl IHl]; simpl; [reflexivity |].
    f_equal; [apply IH, Hxy | exact IHl].
  - assert (Hitems :
      map (fun kv : string * pyval => let '(k, x) := kv in (k, quote k ++ ": " ++ dumps x)) d =
      map (fun kv : string * pyval => let '(k, x) := kv in (k, quote k ++ ": " ++ dumps x)) d').
    { clear Hnd Hp. induction Hd as [| [k x] [k' y] d d' [Hk Hxy] Hd IHd]; simpl;
        [reflexivity |].
      simpl in Hk, Hxy. subst k'. f_equal; [| exact IHd].
      f_equal. f_equal. f_equal. apply IH, Hxy. }
    simpl. rewrite Hitems. do 4 f_equal.
    apply JsonFacts.sort_items_permuted.
    + rewrite <- Hitems, map_map.
      erewrite map_ext; [exact Hnd |]. now intros [k x].
    + now apply Permutation_map.
Qed.

(** X17. The hash does not depend on the order of keys at any depth of the
    received data: data that differ only in the order of the keys of
    their mappings, nested ones included, have the same hash. *)
Theorem hash_ignores_nested_key_order (d d' : list (string * pyval)) :
  reordered (PDict d) (PDict d') -> content_hash d = content_hash d'.
Proof. intros H. unfold content_hash. now rewrite (dumps_reordered _ _ H). Qed.

(** ** The text that is hashed *)

Lemma all_chars_join (p : ascii -> bool) (sep : string) (l : list string) :
  all_chars p sep = true -> Forall (fun s => all_chars p s = true) l ->
  all_chars p (join sep l) = true.
Proof.
  intros Hsep. induction l as [| x l IH]; intros Hl; [reflexivity |].
  apply Forall_cons_iff in Hl as [Hx Hl]. simpl.
  destruct l as [| y l]; [exact Hx |].
  rewrite !Sha256Facts.all_chars_app, Hx, Hsep. simpl. now apply IH.
Qed.

Lemma hex_digit_text (n : Z) : (0 <= n < 16)%Z -> is_ascii_text (hex_digit n) = true.
Proof.
  intros Hn. rewrite <- (Z2Nat.id n) by lia.
  assert (Hm : (Z.to_nat n < 16)%nat) by lia.
  generalize dependent (Z.to_nat n). intros m Hm.
  do 16 (destruct m as [| m]; [reflexivity |]). lia.
Qed.

Lemma code_bounds (c : ascii) : (0 <= code c < 256)%Z.
Proof. unfold code. pose proof (N_ascii_bounded c). lia. Qed.

Lemma escape_char_text (c : ascii) : all_chars is_ascii_text (escape_char c) = true.
Proof.
  unfold escape_char.
  destruct (Ascii.eqb c dquote || Ascii.eqb c backslash) eqn:E.
  { apply orb_true_iff in E as [E | E]; apply Ascii.eqb_eq in E; subst c; reflexivity. }
  repeat (match goal with |- context [if ?b then _ else _] => destruct b eqn:? end;
          [reflexivity |]).
  match goal with |- context [if ?b then _ else _] => destruct b eqn:Hp end.
  - simpl. unfold is_ascii_text at 1. now rewrite Hp.
  - pose proof (code_bounds c) as Hc. unfold hex2.
    cbn [all_chars]. rewrite Sha256Facts.all_chars_app. cbn [all_chars]. rewrite !hex_digit_text.
    + reflexivity.
    + apply Z.mod_pos_bound. lia.
    + split; [apply Z.div_pos; lia | apply Z.div_lt_upper_bound; lia].
Qed.

Lemma escape_text (s : string) : all_chars is_ascii_text (escape s) = true.
Proof.
  induction s as [| c s IH]; simpl; [reflexivity |].
  now rewrite Sha256Facts.all_chars_app, escape_char_text, IH.
Qed.

Lemma quote_text (s : string) : all_chars is_ascii_text (quote s) = true.
Proof.
  unfold quote. cbn [all_chars].
  now rewrite Sha256Facts.all_chars_app, escape_text.
Qed.

Lemma uint_text (d : Decimal.uint) :
  all_chars is_ascii_text (NilEmpty.string_of_uint d) = true.
Proof. induction d; simpl; try reflexivity; exact IHd. Qed.

Lemma decimal_text (z : Z) : all_chars is_ascii_text (decimal z) = true.
Proof.
  unfold decimal, NilZero.string_of_int, NilZero.string_of_uint.
  destruct (Z.to_int z) as [d | d]; destruct d; try reflexivity;
    try apply (uint_text (_ d)); simpl; apply uint_text.
Qed.

(** X18. The text handed to SHA-256 is printable ASCII whatever was received,
    so its UTF-8 encoding has one byte per character, each below 128. *)
Theorem hashed_text_is_ascii (data : list (string * pyval)) :
  all_chars is_ascii_text (dumps (PDict data)) = true /\
  length (Sha256.encode (dumps (PDict data))) = String.length (dumps (PDict data)) /\
  Forall (fun b => (32 <= b <= 126)%Z) (Sha256.encode (dumps (PDict data))).
Proof.
  assert (Hall : forall v, all_chars is_ascii_text (dumps v) = true).
  { induction v as [| b | z | s | xs IH | d IH] using AliasRefines.pyval_nested_ind.
    - reflexivity.
    - now destruct b.
    - apply decimal_text.
    - apply quote_text.
    - simpl. rewrite !Sha256Facts.all_chars_app. rewrite all_chars_join; [reflexivity.. |].
      rewrite Forall_forall in *. intros s Hs.
      apply in_map_iff in Hs as (x & <- & Hx). now apply IH.
    - simpl. rewrite !Sha256Facts.all_chars_app. rewrite all_chars_join; [reflexivity.. |].
      rewrite Forall_forall in *. intros s Hs.
      apply in_map_iff in Hs as ([k t] & <- & Hkt). simpl.
      eapply Permutation_in in Hkt; [| apply Permutation_sym, JsonFacts.sort_items_perm].
      apply in_map_iff in Hkt as ([k' x] & [= <- <-] & Hx).
      rewrite !Sha256Facts.all_chars_app, quote_text. simpl.
      exact (IH _ Hx). }
  assert (Hbytes : forall s, all_chars is_ascii_text s = true ->
            Forall (fun b => (32 <= b <= 126)%Z) (Sha256.encode s)).
  { unfold Sha256.encode. induction s as [| c s IHs]; simpl; [constructor |].
    intros H. apply andb_true_iff in H as [Hc Hs]. constructor; [| now apply IHs].
    unfold is_ascii_text in Hc. apply andb_true_iff in Hc as [H1 H2]. lia. }
  split; [apply Hall |]. split.
  - unfold Sha256.encode. rewrite length_map.
    generalize (dumps (PDict data)). intros s. induction s; simpl; [reflexivity | now f_equal].
  - apply Hbytes, Hall.
Qed.

End CoverageHash.

(** * The further properties at concrete participants *)

Module CoverageWitnesses.
Import Py Provides Usage Scenario Scenario2.

Lemma requested_flag_iff_requests_witness :
  on_ok (check_requests expand_name [p2; p1] fresh)
        (fun st' => requests expand_name [p2; p1] st') = Some [init p1] /\
  exists st',
    check_requests expand_name [p2; p1] fresh = Ok st' /\
    requests expand_name [p2; p1] st' = requests expand_name [p2; p1] fresh /\
    (expand_name "requested" ∈ flags st' <-> requests expand_name [p2; p1] st' <> []).
Proof.
  split; [vm_compute; reflexivity |].
  destruct (check_requests expand_name [p2; p1] fresh) as [st' | e] eqn:E.
  - exists st'. split; [reflexivity |].
    apply (Coverage.requested_flag_iff_requests expand_name [p2; p1] fresh st');
      [discriminate | exact E].
  - vm_compute in E. discriminate E.
Defined.

Lemma conflicting_units_stay_pending_witness :
  hash (init p1) <> hash (init p1_updated) /\
  exists st',
    check_requests expand_name [p1; p1_updated] acknowledged = Ok st' /\
    changed expand_name (init p1) acknowledged
      || changed expand_name (init p1_updated) acknowledged = true /\
    expand_name "requested" ∈ flags st'.
Proof.
  assert (Hh : hash (init p1) <> hash (init p1_updated)) by (vm_compute; discriminate).
  split; [exact Hh |].
  destruct (check_requests expand_name [p1; p1_updated] acknowledged) as [st' | e] eqn:E.
  - exists st'. split; [reflexivity |].
    apply (Coverage.conflicting_units_stay_pending expand_name
             [p1; p1_updated] p1 p1_updated acknowledged st');
      try reflexivity; try exact Hh; try exact E.
    + left. reflexivity.
    + right. left. reflexivity.
    + discriminate.
  - vm_compute in E. discriminate E.
Defined.

Lemma mark_completed_isolated_witness :
  exists st1,
    mark_completed expand_name (init p3) acknowledged = Ok st1 /\
    changed expand_name (init p1) st1 = changed expand_name (init p1) acknowledged /\
    completed_for_instance expand_name (init p1) st1
      = completed_for_instance expand_name (init p1) acknowledged.
Proof.
  destruct (mark_completed expand_name (init p3) acknowledged) as [st1 | e] eqn:E.
  - exists st1. split; [reflexivity |].
    apply (Coverage.mark_completed_isolated expand_name (init p3) (init p1) acknowledged st1);
      [exact E | discriminate].
  - vm_compute in E. discriminate E.
Defined.

Lemma acknowledged_by_content_witness :
  exists st1,
    mark_completed expand_name (init p1) fresh = Ok st1 /\
    is_completed (init p1_updated) st1
      = Ok (String.eqb (hash (init p1)) (hash (init p1_updated))) /\
    changed expand_name (init p1_updated) st1 =
      truthy (instance_id (init p1_updated)) && truthy (_requested (init p1_updated))
      && negb (String.eqb (hash (init p1)) (hash (init p1_updated))).
Proof.
  destruct (Coverage.acknowledged_by_content expand_name (init p1) fresh "i-1" eq_refl)
    as (st1 & Hrun & Hpost).
  exists st1. split; [exact Hrun |].
  exact (Hpost (init p1_updated) eq_refl eq_refl).
Defined.

Lemma clear_after_mark_completed_witness :
  exists st1,
    mark_completed expand_name (init p1) fresh = Ok st1 /\
    changed expand_name (init p1) (clear expand_name (init p1) st1)
      = truthy (instance_id (init p1)) && truthy (_requested (init p1)) /\
    truthy (completed_for_instance expand_name (init p1)
              (clear expand_name (init p1) st1)) = false /\
    is_completed (init p1) (clear expand_name (init p1) st1) = Ok true.
Proof.
  exact (Coverage.clear_after_mark_completed expand_name (init p1) fresh "i-1" eq_refl).
Defined.

Lemma handle_requests_settles_witness :
  requests expand_name [p1; q1] fresh = [init p1; init q1] /\
  exists st',
    handle_requests expand_name [p1; q1] fresh = Ok st' /\
    requests expand_name [p1; q1] st' = [] /\
    exists st'',
      check_requests expand_name [p1; q1] st' = Ok st'' /\
      expand_name "requested" ∉ flags st''.
Proof.
  split; [vm_compute; reflexivity |].
  apply (Coverage.handle_requests_settles expand_name [p1; q1] fresh).
  - intros u [<- | [<- | []]]; reflexivity.
  - intros u1 u2 [<- | [<- | []]] [<- | [<- | []]] H;
      try reflexivity; vm_compute in H; discriminate H.
Defined.

Lemma check_requests_idempotent_witness :
  (forall u, In u [p1; p2] -> plain_id (instance_id (init u)) = true) /\
  exists st1 st2,
    check_requests expand_name [p1; p2] restarted = Ok st1 /\
    check_requests expand_name [p1; p2] st1 = Ok st2 /\
    kv st2 = kv st1 /\ to_publish st2 = to_publish st1 /\
    flags st2 = flags st1 /\ all_departed_units st2 = all_departed_units st1.
Proof.
  assert (H : forall u, In u [p1; p2] -> plain_id (instance_id (init u)) = true).
  { intros u [<- | [<- | []]]; reflexivity. }
  split; [exact H |].
  exact (Coverage.check_requests_idempotent expand_name [p1; p2] restarted H).
Defined.

Lemma check_requests_publishes_only_persisted_witness :
  exists st',
    check_requests expand_name [p1] restarted = Ok st' /\
    kv st' = kv restarted /\
    dict_find (PStr "i-1") (published st' 0) = Some (PStr (hash (init p1))) /\
    (dict_find (PStr "i-1") (published restarted 0) = Some (PStr (hash (init p1))) \/
     exists u, In u [p1] /\ relation u = 0%nat /\
               key_eqb (PStr "i-1") (instance_id (init u)) = true /\
               PStr (hash (init p1)) = PStr (hash (init u)) /\
               kv restarted !! _hash_key expand_name (init u) = Some (PStr (hash (init p1)))).
Proof.
  destruct (Coverage.check_requests_publishes_only_persisted expand_name [p1] restarted)
    as (st' & Hrun & Hkv & Hpub).
  { intros u [<- | []]. reflexivity. }
  exists st'. split; [exact Hrun |]. split; [exact Hkv |].
  assert (Hf : dict_find (PStr "i-1") (published st' 0) = Some (PStr (hash (init p1)))).
  { vm_compute in Hrun. injection Hrun as <-. vm_compute. reflexivity. }
  split; [exact Hf |]. exact (proj2 (Hpub 0%nat (PStr "i-1")) _ Hf).
Defined.

Lemma cleanup_idempotent_and_local_witness :
  cleanup expand_name (cleanup expand_name departing) = cleanup expand_name departing /\
  kv (cleanup expand_name departing) !! expand_name "request.i-2"
    = kv departing !! expand_name "request.i-2".
Proof.
  destruct (Coverage.cleanup_idempotent_and_local expand_name departing)
    as (Hidem & _ & _ & Hloc).
  split; [exact Hidem |]. apply Hloc.
  intros u [<- | []]. discriminate.
Defined.

Lemma hash_key_of_string_ids_witness :
  _hash_key expand_name (init p1) = "endpoint.aws.request.i-1" /\
  _hash_key expand_name (init p1) = _hash_key expand_name (init p1_updated) /\
  _hash_key expand_name (init p1) <> _hash_key expand_name (init p3).
Proof.
  split; [| split].
  - exact (proj1 (Coverage.hash_key_of_string_ids "aws" (init p1) (init p1)
                    "i-1" "i-1" eq_refl eq_refl eq_refl eq_refl)).
  - apply (proj1 (proj2 (Coverage.hash_key_of_string_ids "aws" (init p1) (init p1_updated)
                           "i-1" "i-1" eq_refl eq_refl eq_refl eq_refl))).
    reflexivity.
  - intros H.
    apply (proj1 (proj2 (Coverage.hash_key_of_string_ids "aws" (init p1) (init p3)
                           "i-1" "i-2" eq_refl eq_refl eq_refl eq_refl))) in H.
    discriminate H.
Defined.

Lemma unit_instances_last_wins_witness :
  unit_instances [p1; p2; p1_updated] !! "app/9" = None /\
  unit_instances [p1; p2; p1_updated] !! "app/1"
    = Some [("instance-id", PNone); ("region", PNone)] /\
  unit_instances [p1; p2; p1_updated] !! "app/0"
    = Some [("instance-id", PStr "i-1"); ("region", PStr "us-east-1")].
Proof.
  destruct (CoverageData.unit_instances_last_wins [p1; p2; p1_updated]) as [Hnone Hlast].
  split; [| split].
  - apply Hnone. intros u [<- | [<- | [<- | []]]]; discriminate.
  - apply (Hlast [p1] p2 [p1_updated] eq_refl). intros u [<- | []]. discriminate.
  - apply (Hlast [p1; p2] p1_updated [] eq_refl). intros u [].
Defined.

Lemma application_names_spec_witness :
  "db" ∈ application_names [p1; q1; p2] /\
  application_names [p2; q1; p1] = application_names [p1; q1; p2] /\
  application_names [p1; p1; q1; p2] = application_names [p1; q1; p2].
Proof.
  destruct (CoverageData.application_names_spec [p1; q1; p2]) as (Hmem & Hperm & Hdup).
  split; [| split].
  - apply Hmem. exists q1. split; [right; left; reflexivity | reflexivity].
  - apply Hperm. exact (Permutation_rev [p1; q1; p2]).
  - apply Hdup. left. reflexivity.
Defined.

Lemma tag_accessors_lookup_witness :
  exists tags, instance_tags (init tagged) = Ok tags /\
               forall name, dict_find (PStr name) tags
                            = assoc name [("Name", PStr "web"); ("Team", PNone)].
Proof.
  exact (Forall_inv (CoverageData.tag_accessors_lookup (init tagged)) _ eq_refl).
Defined.

Lemma pattern_accessors_iterate_witness :
  object_storage_access_patterns (init bare_pattern) = Ok [PStr "b"; PStr "/"; PStr "*"].
Proof.
  apply (proj1 (Forall_inv (CoverageData.pattern_accessors_iterate (init bare_pattern)))
           "b/*" eq_refl).
  discriminate.
Defined.

Lemma is_completed_spec_witness :
  is_completed (init bad_id) fresh = Raise TypeError /\
  is_completed (init p1) fresh = Ok false /\
  is_completed (init p1) acknowledged = Ok true.
Proof.
  split; [| split].
  - apply (proj1 (CoverageData.is_completed_spec (init bad_id) fresh)). reflexivity.
  - apply (proj2 (proj2 (CoverageData.is_completed_spec (init p1) fresh))); reflexivity.
  - apply (proj1 (proj2 (CoverageData.is_completed_spec (init p1) acknowledged))).
    split; [reflexivity | vm_compute; reflexivity].
Defined.

Lemma hash_ignores_nested_key_order_witness :
  reordered (PDict tagged_data) (PDict tagged_data_reordered) /\
  content_hash tagged_data = content_hash tagged_data_reordered.
Proof.
  assert (H : reordered (PDict tagged_data) (PDict tagged_data_reordered)).
  { apply (reordered_dict tagged_data
             [("instance-id", PStr "i-1");
              ("instance-tags", PDict [("Team", PNone); ("Name", PStr "web")]);
              ("object-storage-access-patterns", PList [PStr "bucket/*"])]).
    - simpl. repeat (constructor; [simpl; intuition discriminate |]). constructor.
    - repeat constructor; simpl.
      apply (reordered_dict [("Name", PStr "web"); ("Team", PNone)]
               [("Name", PStr "web"); ("Team", PNone)]).
      + simpl. repeat (constructor; [simpl; intuition discriminate |]). constructor.
      + repeat constructor.
      + apply perm_swap.
    - exact (Permutation_rev _). }
  split; [exact H |].
  exact (CoverageHash.hash_ignores_nested_key_order _ _ H).
Defined.

End CoverageWitnesses.
